(** * The binlog consumer and its companion scripts: a shallow embedding

    The consumer (src/consumer.js) receives Maxwell change events from a
    RabbitMQ queue, stamps each one with [received_at] and stores it in
    a MongoDB collection.  This file embeds [processMessage], the two
    connect loops, [main] and its shutdown handler, then the change
    monitor and the two scripts that produce test traffic, and settles
    what the specification says about them: by a theorem where the code
    does it, by a counterexample and the nearest true statement where it
    does not.

    What is modelled and what is taken from outside:
    - JavaScript values as far as [JSON.parse] can produce them, with
      the property assignment, the [||] default and the string
      conversion of template literals that [processMessage] applies;
    - [JSON.parse] itself is a built-in of the language: it is a
      parameter of the development, [None] standing for a SyntaxError;
    - numbers are IEEE doubles in the program; here a number is the
      rational it denotes and [Date.now() / 1000] is the exact quotient;
    - the calls the code makes on the channel, the collection, the
      logger and the process are recorded in order; the outcome of a
      call on an external object (does the store accept the insert, is
      the channel still open, does a connection attempt succeed, does
      [close] throw, is a promise fulfilled or rejected) is an input;
    - a call whose promise the code awaits throws where the promise is
      rejected; a call whose promise the code drops does not, and a
      rejection of that promise is left to the runtime, which is Node 16
      (Dockerfile: FROM node:16-slim, CMD node consumer.js). *)

From Stdlib Require Import ZArith QArith Qcanon.
From stdpp Require Import gmap strings list sorting.

Local Open Scope Z_scope.

(** ** JavaScript values *)
Module JS.

(** The values [JSON.parse] returns.  An array is an object too: next to
    its elements it can carry named properties, which is where
    [content.received_at = ...] lands when the body is a JSON array.
    [undefined] is not a [value]: a property read yields an [option]. *)
#[warnings="-register-all"] Inductive value : Type :=
| VNull
| VBool (b : bool)
| VNum (n : Qc)
| VStr (s : string)
| VArr (elems : list value) (props : gmap string value)
| VObj (props : gmap string value).

Inductive error : Type :=
| SyntaxError            (* JSON.parse on a malformed body *)
| TypeError              (* property write on null, failed string conversion *)
| StoreError             (* thrown or rejected by the MongoDB driver *)
| BrokerError.           (* thrown or rejected by amqplib *)

Inductive result (A : Type) : Type :=
| Ok (a : A)
| Throw (e : error).
Arguments Ok {A} a.
Arguments Throw {A} e.

Definition is_object (v : value) : bool :=
  match v with
  | VArr _ _ | VObj _ => true
  | _ => false
  end.

(** ToBoolean, as [||] applies it to the left operand. *)
Definition ToBoolean (v : option value) : bool :=
  match v with
  | None => false
  | Some VNull => false
  | Some (VBool b) => b
  | Some (VNum n) => if decide (n = Q2Qc 0) then false else true
  | Some (VStr s) => if decide (s = "") then false else true
  | Some (VArr _ _) => true
  | Some (VObj _) => true
  end.

(** [x || d] with a defined right operand. *)
Definition or_default (x : option value) (d : value) : value :=
  match x with
  | Some v => if ToBoolean x then v else d
  | None => d
  end.

(** [v.key] for the keys the consumer reads ([database], [table],
    [type]).  Reading a property of null throws; a primitive is boxed
    and none of String.prototype, Number.prototype, Boolean.prototype,
    Array.prototype or Object.prototype defines one of these three
    names, so only own properties are found. *)
Definition get_property (v : value) (key : string) : result (option value) :=
  match v with
  | VNull => Throw TypeError
  | VBool _ | VNum _ | VStr _ => Ok None
  | VArr _ props => Ok (props !! key)
  | VObj props => Ok (props !! key)
  end.

(** [v.key = x] in sloppy mode (consumer.js is a CommonJS script without
    a strict directive) for a key that is neither an array index nor
    [length]: null throws, a primitive silently keeps no property, an
    object or array gets or replaces its own property. *)
Definition set_property (v : value) (key : string) (x : value) : result value :=
  match v with
  | VNull => Throw TypeError
  | VBool _ | VNum _ | VStr _ => Ok v
  | VArr elems props => Ok (VArr elems (<[key := x]> props))
  | VObj props => Ok (VObj (<[key := x]> props))
  end.

(** Text produced by string conversion.  The decimal rendering of a
    number (Number::toString) is kept symbolic as [Digits n]. *)
Inductive piece : Type :=
| Chars (s : string)
| Digits (n : Qc).

Definition text : Type := list piece.

(** OrdinaryToPrimitive with hint string, for an object whose own
    properties are [own] and whose inherited [toString] would return
    [inherited].  An own [toString] or [valueOf] holds a JSON value,
    which is not callable; the inherited [valueOf] returns the object
    itself, which is not a primitive. *)
Definition OrdinaryToPrimitive (own : gmap string value) (inherited : result text)
  : result text :=
  match own !! "toString" with
  | None => inherited
  | Some _ =>
      match own !! "valueOf" with
      | None => Throw TypeError
      | Some _ => Throw TypeError
      end
  end.

(** ToString, as a template literal applies it to a substitution. *)
Fixpoint ToString (v : value) : result text :=
  match v with
  | VNull => Ok [Chars "null"]
  | VBool true => Ok [Chars "true"]
  | VBool false => Ok [Chars "false"]
  | VNum n => Ok [Digits n]
  | VStr s => Ok [Chars s]
  | VObj props => OrdinaryToPrimitive props (Ok [Chars "[object Object]"])
  | VArr elems props =>
      OrdinaryToPrimitive props
        match props !! "join" with
        | Some _ => Ok [Chars "[object Array]"]
        | None =>
            (fix join (l : list value) : result text :=
               match l with
               | [] => Ok []
               | x :: rest =>
                   match (match x with VNull => Ok [] | _ => ToString x end) with
                   | Throw e => Throw e
                   | Ok t =>
                       match rest with
                       | [] => Ok t
                       | _ :: _ =>
                           match join rest with
                           | Throw e => Throw e
                           | Ok r => Ok (t ++ Chars "," :: r)
                           end
                       end
                   end
               end) elems
        end
  end.

End JS.

(** ** The consumer *)
Module Consumer.
Import JS.

(** A delivery, as amqplib hands it to the consume callback: the body and
    the delivery tag that [ack] and [nack] refer to. *)
Record Message : Type := { content : string; deliveryTag : N }.

Inductive level : Type := info | warn | error_level.

(** What a log line is made of: literal text, converted values, and the
    [message] of a caught error. *)
Inductive fragment : Type :=
| Lit (t : text)
| ErrorMessage (e : error).

(** The calls the consumer makes on the objects it does not own, in the
    order it makes them. *)
Inductive action : Type :=
| InsertOne (doc : value)                       (* collection.insertOne(doc) *)
| Ack (m : Message)                             (* channel.ack(m) *)
| Nack (m : Message) (allUpTo requeue : bool)   (* channel.nack(m, allUpTo, requeue) *)
| Log (l : level) (line : list fragment).       (* logger.info / warn / error *)

(** The part of the world [processMessage] acts on. *)
Record World : Type := { calls : list action; documents : list value }.

(** What one run of [processMessage] reads from outside: the clock
    ([Date.now()], milliseconds) and the store's verdict on an insert:
    with [accepts] the document is kept and the promise of [insertOne]
    is fulfilled, without it the promise is rejected. *)
Record Env : Type := { now : Z; accepts : value → bool }.

(** What can go wrong around a delivery beside that: the channel is
    closed by the time the run comes to resolve the message, so that
    [channel.ack] and [channel.nack] throw (amqplib's
    IllegalOperationError); the store applies a write although the
    promise of [insertOne] is rejected (the acknowledgement of the
    write is lost or late). *)
Record Faults : Type := {
  channel_closed : bool;
  applied_unreported : value → bool
}.

(** The channel stays open and the store reports what it did. *)
Definition no_faults : Faults :=
  {| channel_closed := false; applied_unreported := λ _, false |}.

(** State and exceptions: a thrown error keeps the effects made so far. *)
Definition M (A : Type) : Type := World → result A * World.

#[export] Instance M_ret : MRet M := λ A a w, (Ok a, w).
#[export] Instance M_bind : MBind M := λ A B f m w,
  match m w with
  | (Ok a, w') => f a w'
  | (Throw e, w') => (Throw e, w')
  end.

Definition lift {A} (r : result A) : M A := λ w, (r, w).

(** [try { body } catch (error) { handler }] *)
Definition try_catch {A} (body : M A) (handler : error → M A) : M A := λ w,
  match body w with
  | (Ok a, w') => (Ok a, w')
  | (Throw e, w') => handler e w'
  end.

(** A call on the logger: it returns. *)
Definition call (a : action) : M unit := λ w,
  (Ok tt, {| calls := calls w ++ [a]; documents := documents w |}).

(** [channel.ack(...)] and [channel.nack(...)]: the call is made; on a
    closed channel it throws. *)
Definition channel_call (f : Faults) (a : action) : M unit := λ w,
  (if channel_closed f then Throw BrokerError else Ok tt,
   {| calls := calls w ++ [a]; documents := documents w |}).

(** [await collection.insertOne(doc)]: the call is made; the store
    keeps the document and the promise is fulfilled, or the promise is
    rejected, with the document not kept or kept all the same.  (The
    [_id] the driver adds to a document is left out; the consumer never
    reads it.) *)
Definition insertOne (f : Faults) (env : Env) (doc : value) : M unit := λ w,
  let w' := {| calls := calls w ++ [InsertOne doc]; documents := documents w |} in
  let kept := {| calls := calls w'; documents := documents w' ++ [doc] |} in
  if accepts env doc then (Ok tt, kept)
  else (Throw StoreError, if applied_unreported f doc then kept else w').

(** [Date.now() / 1000] *)
Definition seconds (ms : Z) : Qc := Q2Qc (ms # 1000).

#[export] Instance result_ret : MRet result := λ A a, Ok a.
#[export] Instance result_bind : MBind result := λ A B f r,
  match r with
  | Ok a => f a
  | Throw e => Throw e
  end.

(** [content.key || 'unknown'] *)
Definition field_or_unknown (content : value) (key : string) : result value :=
  x ← get_property content key;
  mret (or_default x (VStr "unknown")).

(** The line [processMessage] logs before it acknowledges. *)
Definition processed_line (ty db tb : text) : list fragment :=
  [Lit ([Chars "Processed "] ++ ty ++ [Chars " event for "] ++ db ++ [Chars "."] ++ tb)].

(** Lines 115 to 119: the three constants, then the template literal,
    which converts its substitutions from left to right. *)
Definition log_line (content : value) : result (list fragment) :=
  database ← field_or_unknown content "database";
  table ← field_or_unknown content "table";
  typeOfChange ← field_or_unknown content "type";
  ty ← ToString typeOfChange;
  db ← ToString database;
  tb ← ToString table;
  mret (processed_line ty db tb).

Section WithParser.

(** [JSON.parse(message.content.toString())]; [None] is a SyntaxError. *)
Variable JSON_parse : string → option value.

Definition parse (body : string) : M value :=
  match JSON_parse body with
  | Some v => mret v
  | None => lift (Throw SyntaxError)
  end.

(** [processMessage] (lines 103 to 128), under the faults [f]. *)
Definition processMessage_under (f : Faults) (env : Env) (message : Message) : M unit :=
  try_catch
    (content ← parse (content message);
     content ← lift (set_property content "received_at" (VNum (seconds (now env))));
     insertOne f env content;;
     line ← lift (log_line content);
     call (Log info line);;
     channel_call f (Ack message))
    (λ error,
       call (Log error_level [Lit [Chars "Error processing message: "]; ErrorMessage error]);;
       channel_call f (Nack message false true)).

(** The consume callback of [main] (lines 153 to 159): a null delivery
    is skipped, a rejection of [processMessage] is logged. *)
Definition on_delivery_under (f : Faults) (env : Env) (message : option Message) : M unit :=
  match message with
  | Some m =>
      try_catch (processMessage_under f env m)
        (λ err, call (Log error_level [Lit [Chars "Error in message processing: "];
                                       ErrorMessage err]))
  | None => mret tt
  end.

(** [processMessage] and the consume callback on a channel that stays
    open, against a store that reports what it did. *)
Definition processMessage (env : Env) (message : Message) : M unit :=
  processMessage_under no_faults env message.

Definition on_delivery (env : Env) (message : option Message) : M unit :=
  on_delivery_under no_faults env message.

(** The same message delivered again and again, each time under its own
    clock reading and store verdict. *)
Fixpoint redeliver (envs : list Env) (message : Message) (w : World) : World :=
  match envs with
  | [] => w
  | env :: rest => redeliver rest message (on_delivery env (Some message) w).2
  end.

(** The same, each delivery with its faults. *)
Fixpoint redeliver_under (deliveries : list (Faults * Env)) (message : Message) (w : World)
  : World :=
  match deliveries with
  | [] => w
  | (f, env) :: rest =>
      redeliver_under rest message (on_delivery_under f env (Some message) w).2
  end.

End WithParser.

Definition start : World := {| calls := []; documents := [] |}.

(** The documents handed to [insertOne] in a sequence of calls. *)
Definition inserted (acts : list action) : list value :=
  omap (λ a, match a with InsertOne doc => Some doc | _ => None end) acts.

(** The messages acknowledged, and those negatively acknowledged with
    the two flags of the call. *)
Definition acks (acts : list action) : list Message :=
  omap (λ a, match a with Ack m => Some m | _ => None end) acts.

Definition nacks (acts : list action) : list (Message * bool * bool) :=
  omap (λ a, match a with Nack m allUpTo requeue => Some (m, allUpTo, requeue)
             | _ => None end) acts.

(** What the assignment of line 109 makes of an object or an array. *)
Definition stamped (v : value) (t : Qc) : value :=
  match v with
  | VObj props => VObj (<["received_at" := VNum t]> props)
  | VArr elems props => VArr elems (<["received_at" := VNum t]> props)
  | _ => v
  end.

(** The two calls of the catch block. *)
Definition nack_calls (m : Message) (e : error) : list action :=
  [Log error_level [Lit [Chars "Error processing message: "]; ErrorMessage e];
   Nack m false true].

End Consumer.

(** ** Connecting, starting up and shutting down *)
Module Process.
Import JS Consumer.

Inductive conn_event : Type := ev_error | ev_close.

(** The operations of one connection attempt that can throw or reject. *)
Inductive broker_op : Type :=
| op_amqp_connect | op_createChannel | op_assertExchange | op_assertQueue | op_bindQueue.

Inductive store_op : Type :=
| op_new_MongoClient | op_client_connect
| op_index_database_table | op_index_data_id | op_index_ts.

Inductive main_op : Type := op_prefetch | op_consume.

#[export] Instance broker_op_eq_dec : EqDecision broker_op.
Proof. solve_decision. Defined.
#[export] Instance store_op_eq_dec : EqDecision store_op.
Proof. solve_decision. Defined.
#[export] Instance main_op_eq_dec : EqDecision main_op.
Proof. solve_decision. Defined.

(** Calls on the broker library, the store driver, the timers, the
    logger and the process.  A connection and its one channel carry the
    number of the attempt that made them. *)
Inductive call : Type :=
| amqp_connect (k : nat)
| connection_on (k : nat) (ev : conn_event)       (* handler: reconnect after 5000 ms *)
| createChannel (k : nat)
| assertExchange (k : nat) (exchange kind : string) (durable : bool)
| assertQueue (k : nat) (queue : string) (durable : bool)
| bindQueue (k : nat) (queue exchange routing_key : string)
| prefetch (k : nat) (count : nat)
| consume (k : nat) (queue : string)
| connection_close (k : nat)
| new_MongoClient (k : nat)
| client_connect (k : nat)
| createIndex (k : nat) (keys : list (string * Z))
| client_close (k : nat)
| setTimeout_connectToRabbitMQ (ms : Z)          (* setTimeout(connectToRabbitMQ, ms) *)
| sleep (ms : Z)                                  (* await new Promise(r => setTimeout(r, ms)) *)
| on_SIGINT
| log (l : level) (line : list fragment)
| exit (code : Z)
| uncaught_rejection (op : main_op).              (* raised by Node, not called by the script *)

(** How a piece of asynchronous code can end: it returns, it throws, it
    is still waiting inside a retry loop when the observation stops, or
    it has ended the process. *)
Inductive outcome (A : Type) : Type :=
| Done (a : A)
| Thrown (e : error)
| Pending
| Exited (code : Z).
Arguments Done {A} a.
Arguments Thrown {A} e.
Arguments Pending {A}.
Arguments Exited {A} code.

Definition P (A : Type) : Type := list call * outcome A.

#[export] Instance P_ret : MRet P := λ A a, ([], Done a).
#[export] Instance P_bind : MBind P := λ A B f m,
  match m with
  | (cs, Done a) => let (cs', r) := f a in (cs ++ cs', r)
  | (cs, Thrown e) => (cs, Thrown e)
  | (cs, Pending) => (cs, Pending)
  | (cs, Exited code) => (cs, Exited code)
  end.

Definition try_catch_P {A} (body : P A) (handler : error → P A) : P A :=
  match body with
  | (cs, Thrown e) => let (cs', r) := handler e in (cs ++ cs', r)
  | other => other
  end.

(** A call that returns. *)
Definition do (c : call) : P unit := ([c], Done tt).

(** A call that throws (or whose awaited promise rejects) when [fails]. *)
Definition attempt (c : call) (e : error) (fails : bool) : P unit :=
  ([c], if fails then Thrown e else Done tt).

(** How a call goes whose promise the script does not await. *)
Inductive unawaited : Type :=
| goes_well      (* it returns a promise, which is fulfilled *)
| throws_at_once (* it throws before it returns *)
| rejects.       (* it returns a promise, which is rejected; nothing handles it *)

(** A call made as a statement of its own: the promise it returns is
    dropped, so only an error thrown by the call itself is seen here. *)
Definition launch (c : call) (e : error) (how : unawaited) : P unit :=
  ([c], match how with
        | throws_at_once => Thrown e
        | goes_well | rejects => Done tt
        end).

(** Is [op] the operation named in [fails]? *)
Definition fails_at {op} `{EqDecision op} (fails : option op) (o : op) : bool :=
  match fails with
  | Some o' => if decide (o' = o) then true else false
  | None => false
  end.

(** [process.exit(code)] *)
Definition process_exit {A} (code : Z) : P A := ([exit code], Exited code).

Definition failed (what : string) (e : error) : list fragment :=
  [Lit [Chars what]; ErrorMessage e].

Record Config : Type := {
  RABBITMQ_EXCHANGE : string;
  RABBITMQ_QUEUE : string
}.

Definition default_config : Config :=
  {| RABBITMQ_EXCHANGE := "maxwell"; RABBITMQ_QUEUE := "maxwell_consumer" |}.

Section WithConfig.
Variable cfg : Config.

(** The body of the [try] in [connectToRabbitMQ], for attempt [k];
    [fails] names the operation that fails in this attempt, if any. *)
Definition rabbit_attempt (fails : option broker_op) (k : nat) : P nat :=
  let throws := fails_at fails in
  attempt (amqp_connect k) BrokerError (throws op_amqp_connect);;
  do (connection_on k ev_error);;
  do (connection_on k ev_close);;
  attempt (createChannel k) BrokerError (throws op_createChannel);;
  attempt (assertExchange k (RABBITMQ_EXCHANGE cfg) "fanout" true) BrokerError
          (throws op_assertExchange);;
  attempt (assertQueue k (RABBITMQ_QUEUE cfg) true) BrokerError (throws op_assertQueue);;
  attempt (bindQueue k (RABBITMQ_QUEUE cfg) (RABBITMQ_EXCHANGE cfg) "") BrokerError
          (throws op_bindQueue);;
  do (log info [Lit [Chars "Successfully connected to RabbitMQ"]]);;
  mret k.

(** The body of the [try] in [connectToMongoDB]. *)
Definition mongo_attempt (fails : option store_op) (k : nat) : P nat :=
  let throws := fails_at fails in
  attempt (new_MongoClient k) StoreError (throws op_new_MongoClient);;
  attempt (client_connect k) StoreError (throws op_client_connect);;
  attempt (createIndex k [("database", 1); ("table", 1)]) StoreError
          (throws op_index_database_table);;
  attempt (createIndex k [("data.id", 1)]) StoreError (throws op_index_data_id);;
  attempt (createIndex k [("ts", 1)]) StoreError (throws op_index_ts);;
  do (log info [Lit [Chars "Successfully connected to MongoDB"]]);;
  mret k.

(** [while (true) { try { return body } catch (error) { warn; sleep 5000 } }]
    observed for [fuel] rounds, the first of which is attempt [k]. *)
Fixpoint retry (body : nat → P nat) (warning : string) (fuel k : nat) : P nat :=
  match fuel with
  | O => ([], Pending)
  | S fuel' =>
      try_catch_P (body k)
        (λ error,
           do (log warn [Lit [Chars warning]; ErrorMessage error;
                         Lit [Chars ". Retrying in 5 seconds..."]]);;
           do (sleep 5000);;
           retry body warning fuel' (S k))
  end.

Definition connectToRabbitMQ (fails : nat → option broker_op) (fuel k : nat) : P nat :=
  retry (λ k, rabbit_attempt (fails k) k) "Failed to connect to RabbitMQ: " fuel k.

Definition connectToMongoDB (fails : nat → option store_op) (fuel k : nat) : P nat :=
  retry (λ k, mongo_attempt (fails k) k) "Failed to connect to MongoDB: " fuel k.

(** The handlers [connectToRabbitMQ] puts on a connection. *)
Definition on_connection_event (ev : conn_event) : list call :=
  match ev with
  | ev_error =>
      [log error_level (failed "RabbitMQ connection error: " BrokerError);
       setTimeout_connectToRabbitMQ 5000]
  | ev_close =>
      [log warn [Lit [Chars "RabbitMQ connection closed. Reconnecting..."]];
       setTimeout_connectToRabbitMQ 5000]
  end.

(** What the timer set by those handlers runs: [connectToRabbitMQ] with
    nobody to take its return value. *)
Definition timer_connectToRabbitMQ (fails : nat → option broker_op) (fuel k : nat)
  : list call :=
  (connectToRabbitMQ fails fuel k).1.

(** What the outside decides during start-up and shutdown. *)
Record Outside : Type := {
  store_fails : nat → option store_op;
  broker_fails : nat → option broker_op;
  prefetch_goes : unawaited;
  consume_goes : unawaited;
  connection_close_fails : bool;
  client_close_fails : bool
}.

(** [if (rabbitMQConnection) await rabbitMQConnection.close();
     if (mongoClient) await mongoClient.close();] *)
Definition close_both (o : Outside) (rabbitMQConnection mongoClient : option nat) : P unit :=
  match rabbitMQConnection with
  | Some k => attempt (connection_close k) BrokerError (connection_close_fails o)
  | None => mret tt
  end;;
  match mongoClient with
  | Some k => attempt (client_close k) StoreError (client_close_fails o)
  | None => mret tt
  end.

(** The SIGINT handler. *)
Definition shutdown (o : Outside) (rabbitMQConnection mongoClient : option nat) : P unit :=
  do (log info [Lit [Chars "Shutting down consumer..."]]);;
  try_catch_P
    (close_both o rabbitMQConnection mongoClient;;
     do (log info [Lit [Chars "Consumer has been shut down"]]);;
     process_exit 0)
    (λ error,
       do (log error_level (failed "Error during shutdown: " error));;
       process_exit 1).

(** The catch block of [main], with the two variables as they are when
    the error is thrown. *)
Definition main_catch {A} (o : Outside) (rabbitMQConnection mongoClient : option nat)
    (error : JS.error) : P A :=
  do (log error_level (failed "Unexpected error in main: " error));;
  close_both o rabbitMQConnection mongoClient;;
  process_exit 1.

(** [main].  One [try] covers the whole body; it is split here where
    [mongoClient] and [rabbitMQConnection] are assigned, so that the
    catch block finds each of them set or not as in the source.  The
    two connect loops are awaited; [channel.prefetch(1)] (line 148) and
    [channel.consume(...)] (line 153) are not: the catch block sees
    what they throw, never what their promises are rejected with.
    [main] returns with the SIGINT handler set; the pair is the store
    client and the broker connection that handler holds. *)
Definition main (o : Outside) (fuel : nat) : P (nat * nat) :=
  mongoClient ← try_catch_P (connectToMongoDB (store_fails o) fuel 0)
                            (main_catch o None None);
  rabbitMQConnection ← try_catch_P (connectToRabbitMQ (broker_fails o) fuel 0)
                                    (main_catch o None (Some mongoClient));
  try_catch_P
    (launch (prefetch rabbitMQConnection 1) BrokerError (prefetch_goes o);;
     do (log info [Lit [Chars "Starting to consume messages..."]]);;
     launch (consume rabbitMQConnection (RABBITMQ_QUEUE cfg)) BrokerError
            (consume_goes o);;
     do on_SIGINT;;
     mret (mongoClient, rabbitMQConnection))
    (main_catch o (Some rabbitMQConnection) (Some mongoClient)).

(** [main().catch(error => { logger.error(...); process.exit(1); })] *)
Definition start_application (o : Outside) (fuel : nat) : P (nat * nat) :=
  try_catch_P (main o fuel)
    (λ error,
       do (log error_level (failed "Failed to start consumer: " error));;
       process_exit 1).

(** The promises of [main] that are rejected with nothing to handle
    them. *)
Definition unhandled (o : Outside) : list main_op :=
  match prefetch_goes o with rejects => [op_prefetch] | _ => [] end
  ++ match consume_goes o with rejects => [op_consume] | _ => [] end.

(** [node consumer.js] on Node 16, which is how the image runs the
    script (Dockerfile: FROM node:16-slim, CMD node consumer.js).  Since
    Node 15 a promise that is rejected and has no handler is raised as
    an uncaught exception; the script listens neither for
    [unhandledRejection] nor for [uncaughtException], so the process
    ends with status 1.  The rejection is taken to be noticed once
    [main] has returned.  When [main] has not returned (it is still
    connecting, or the other call has thrown and the catch block has
    run to [process.exit]), the script is followed as it is. *)
Definition node_consumer (o : Outside) (fuel : nat) : P (nat * nat) :=
  match start_application o fuel with
  | (cs, Done r) =>
      match unhandled o with
      | [] => (cs, Done r)
      | op :: _ => (cs ++ [uncaught_rejection op], Exited 1)
      end
  | other => other
  end.

End WithConfig.

Definition exit_code {A} (p : P A) : option Z :=
  match p.2 with
  | Exited code => Some code
  | _ => None
  end.

(** Projections of a sequence of calls: the waits, the exits, the
    connection attempts begun on the broker and on the store. *)
Definition sleeps (cs : list call) : list Z :=
  omap (λ c, match c with sleep ms => Some ms | _ => None end) cs.

Definition exits (cs : list call) : list Z :=
  omap (λ c, match c with exit code => Some code | _ => None end) cs.

Definition broker_attempts (cs : list call) : list nat :=
  omap (λ c, match c with amqp_connect k => Some k | _ => None end) cs.

Definition store_attempts (cs : list call) : list nat :=
  omap (λ c, match c with new_MongoClient k => Some k | _ => None end) cs.

(** Among the attempts [k], [k+1], ..., [k+fuel-1]: the first one that
    works, and the number of those that fail before it. *)
Fixpoint first_success (works : nat → bool) (fuel k : nat) : option nat :=
  match fuel with
  | O => None
  | S fuel' => if works k then Some k else first_success works fuel' (S k)
  end.

Fixpoint failures (works : nat → bool) (fuel k : nat) : nat :=
  match fuel with
  | O => O
  | S fuel' => if works k then O else S (failures works fuel' (S k))
  end.

Definition works {op} (fails : nat → option op) (k : nat) : bool :=
  match fails k with
  | None => true
  | Some _ => false
  end.

End Process.

(** ** The broker, as the consumer relies on it

    RabbitMQ is not part of the repository.  The model below is the
    behaviour the specification assumes of it (sections 4.1 and 4.3 and
    the glossary): a queue of ready messages; per channel an optional
    prefetch limit, a consumer flag and the delivered messages not yet
    resolved; delivery only to an open channel with a consumer and room
    under its limit; requeue on nack and when the connection goes. *)
Module Broker.
Import JS Consumer Process.

#[export] Instance Message_eq_dec : EqDecision Message.
Proof. solve_decision. Defined.

Record channel : Type := {
  is_open : bool;
  qos : option nat;          (* basic.qos prefetch count, if one was set *)
  consuming : bool;          (* basic.consume was issued *)
  unacked : list Message     (* delivered, neither acked nor nacked *)
}.

Record state : Type := { ready : list Message; channels : gmap nat channel }.

Definition initial : state := {| ready := []; channels := ∅ |}.

Definition fresh_channel : channel :=
  {| is_open := true; qos := None; consuming := false; unacked := [] |}.

(** A prefetch count of 0, or none, means no limit. *)
Definition has_room (ch : channel) : bool :=
  match qos ch with
  | Some (S n) => bool_decide (length (unacked ch) < S n)%nat
  | _ => true
  end.

(** The connection of channel [k] is gone: what it had not resolved goes
    back to the queue. *)
Definition lose (k : nat) (s : state) : state :=
  match channels s !! k with
  | Some ch =>
      {| ready := unacked ch ++ ready s;
         channels := <[k := {| is_open := false; qos := qos ch;
                               consuming := false; unacked := [] |}]> (channels s) |}
  | None => s
  end.

(** The effect of a call of the consumer on the broker. *)
Definition client (c : call) (s : state) : state :=
  match c with
  | createChannel k =>
      {| ready := ready s; channels := <[k := fresh_channel]> (channels s) |}
  | prefetch k n =>
      {| ready := ready s;
         channels := alter (λ ch, {| is_open := is_open ch; qos := Some n;
                                     consuming := consuming ch;
                                     unacked := unacked ch |}) k (channels s) |}
  | consume k _ =>
      {| ready := ready s;
         channels := alter (λ ch, {| is_open := is_open ch; qos := qos ch;
                                     consuming := true;
                                     unacked := unacked ch |}) k (channels s) |}
  | connection_close k => lose k s
  | _ => s
  end.

Inductive event : Type :=
| publish (m : Message)            (* Maxwell publishes, the queue receives *)
| deliver (k : nat)                (* the head of the queue goes to channel k *)
| ack (k : nat) (m : Message)      (* channel.ack(m) arrives *)
| nack (k : nat) (m : Message)     (* channel.nack(m, false, true) arrives *)
| drop (k : nat).                  (* the connection of channel k is lost *)

Fixpoint remove_first (m : Message) (l : list Message) : list Message :=
  match l with
  | [] => []
  | x :: rest => if decide (x = m) then rest else x :: remove_first m rest
  end.

Definition resolve (k : nat) (m : Message) (requeue : bool) (s : state) : option state :=
  match channels s !! k with
  | Some ch =>
      if bool_decide (m ∈ unacked ch) then
        Some {| ready := if requeue then m :: ready s else ready s;
                channels := <[k := {| is_open := is_open ch; qos := qos ch;
                                      consuming := consuming ch;
                                      unacked := remove_first m (unacked ch) |}]>
                              (channels s) |}
      else None
  | None => None
  end.

(** [None]: the event cannot happen in this state. *)
Definition happen (e : event) (s : state) : option state :=
  match e with
  | publish m => Some {| ready := ready s ++ [m]; channels := channels s |}
  | deliver k =>
      match channels s !! k, ready s with
      | Some ch, m :: rest =>
          if is_open ch && consuming ch && has_room ch then
            Some {| ready := rest;
                    channels := <[k := {| is_open := is_open ch; qos := qos ch;
                                          consuming := consuming ch;
                                          unacked := unacked ch ++ [m] |}]>
                                  (channels s) |}
          else None
      | _, _ => None
      end
  | ack k m => resolve k m false s
  | nack k m => resolve k m true s
  | drop k => Some (lose k s)
  end.

(** A history: calls of the consumer and events of the broker, in the
    order they take effect. *)
Inductive step : Type :=
| Client (c : call)
| Event (e : event).

Fixpoint run (steps : list step) (s : state) : option state :=
  match steps with
  | [] => Some s
  | Client c :: rest => run rest (client c s)
  | Event e :: rest =>
      match happen e s with
      | Some s' => run rest s'
      | None => None
      end
  end.

Definition client_calls (steps : list step) : list call :=
  omap (λ st, match st with Client c => Some c | Event _ => None end) steps.

Definition deliveries (steps : list step) : list nat :=
  omap (λ st, match st with Event (deliver k) => Some k | _ => None end) steps.

(** Calls that leave prefetch limits and consumers as they are. *)
Definition neutral (c : call) : bool :=
  match c with
  | prefetch _ _ | consume _ _ => false
  | _ => true
  end.

(** A sequence of calls is disciplined when it subscribes only on a
    channel on which it has set the prefetch limit 1 before, and sets no
    other limit; [limited] holds the channels whose limit is set. *)
Fixpoint disciplined (limited : gset nat) (cs : list call) : bool :=
  match cs with
  | [] => true
  | createChannel k :: rest => disciplined (limited ∖ {[k]}) rest
  | prefetch k n :: rest => bool_decide (n = 1%nat) && disciplined ({[k]} ∪ limited) rest
  | consume k _ :: rest => bool_decide (k ∈ limited) && disciplined limited rest
  | _ :: rest => disciplined limited rest
  end.

(** The bound the prefetch limit is there for, as an invariant: no
    channel holds more than one unresolved message; the channels in
    [limited] have the limit 1; the others have no consumer and hold
    nothing. *)
Definition within_limit (limited : gset nat) (s : state) : Prop :=
  ∀ k ch, channels s !! k = Some ch →
    (length (unacked ch) ≤ 1)%nat
    ∧ (k ∈ limited → qos ch = Some 1%nat)
    ∧ (k ∉ limited → consuming ch = false ∧ unacked ch = []).

End Broker.

(** ** Sample inputs *)
Module Samples.
Import JS Consumer Process Broker.

Definition dq : string := String (Ascii.ascii_of_nat 34) "".

(** The body [{ type : { toString : 1 } }] with its keys quoted. *)
Definition poison_body : string :=
  "{" +:+ dq +:+ "type" +:+ dq +:+ ":{" +:+ dq +:+ "toString" +:+ dq +:+ ":1}}".

Definition poison_value : value :=
  VObj {[ "type" := VObj {[ "toString" := VNum (Q2Qc 1) ]} ]}.

(** The body [{ table : users, type : insert }], keys and strings
    quoted: an insert event without its [database]. *)
Definition quoted (s : string) : string := dq +:+ s +:+ dq.

Definition users_body : string :=
  "{" +:+ quoted "table" +:+ ":" +:+ quoted "users" +:+ ","
      +:+ quoted "type" +:+ ":" +:+ quoted "insert" +:+ "}".

Definition users_value : value :=
  VObj (<["table" := VStr "users"]> {[ "type" := VStr "insert" ]}).

(** [JSON.parse] on the sample bodies; every other body used below is
    malformed. *)
Definition sample_parse (body : string) : option value :=
  if decide (body = "{}") then Some (VObj ∅)
  else if decide (body = "[]") then Some (VArr [] ∅)
  else if decide (body = "7") then Some (VNum (Q2Qc 7))
  else if decide (body = "true") then Some (VBool true)
  else if decide (body = "null") then Some VNull
  else if decide (body = poison_body) then Some poison_value
  else if decide (body = users_body) then Some users_value
  else None.

Definition message (body : string) : Message := {| content := body; deliveryTag := 1 |}.

Definition store_up (t : Z) : Env := {| now := t; accepts := λ _, true |}.
Definition store_down (t : Z) : Env := {| now := t; accepts := λ _, false |}.

(** The store applies the write, but the promise of [insertOne] is
    rejected. *)
Definition write_unreported : Faults :=
  {| channel_closed := false; applied_unreported := λ _, true |}.

(** The channel is closed under the consumer. *)
Definition closed_channel : Faults :=
  {| channel_closed := true; applied_unreported := λ _, false |}.

(** Everything outside works at once. *)
Definition calm : Outside :=
  {| store_fails := λ _, None; broker_fails := λ _, None;
     prefetch_goes := goes_well; consume_goes := goes_well;
     connection_close_fails := false; client_close_fails := false |}.

(** Both connections are made at once and the consumer subscribes; at
    shutdown the store client refuses to close. *)
Definition close_refused : Outside :=
  {| store_fails := λ _, None; broker_fails := λ _, None;
     prefetch_goes := goes_well; consume_goes := goes_well;
     connection_close_fails := false; client_close_fails := true |}.

(** Both connections are made at once; the broker refuses the
    subscription, so the promise of [consume] is rejected. *)
Definition consume_rejected : Outside :=
  {| store_fails := λ _, None; broker_fails := λ _, None;
     prefetch_goes := goes_well; consume_goes := rejects;
     connection_close_fails := false; client_close_fails := false |}.

(** Both connections are made at once; [prefetch] throws before it
    returns, and the broker connection refuses to close. *)
Definition prefetch_throws : Outside :=
  {| store_fails := λ _, None; broker_fails := λ _, None;
     prefetch_goes := throws_at_once; consume_goes := goes_well;
     connection_close_fails := true; client_close_fails := false |}.

(** A connection lost with a message in flight: [main] starts and
    subscribes on channel 0; a message is published and delivered; the
    connection closes before the message is resolved; the close handler
    sets its timer; the timer runs [connectToRabbitMQ], which succeeds
    at once with connection 1. *)
Definition connection_lost_in_flight : list step :=
  (Client <$> (main default_config calm 1).1)
  ++ [Event (publish (message "{}")); Event (deliver 0); Event (drop 0)]
  ++ (Client <$> on_connection_event ev_close)
  ++ (Client <$> timer_connectToRabbitMQ default_config (λ _, None) 1 1).

(** The broker after that history: channel 0 is gone, channel 1 is open
    without limit and without consumer, the message is back in the
    queue. *)
Definition after_reconnection : state :=
  {| ready := [message "{}"];
     channels := <[1%nat := fresh_channel]>
                   {[ 0%nat := {| is_open := false; qos := Some 1%nat;
                                  consuming := false; unacked := [] |} ]} |}.

(** An ordinary history: [main] starts, two messages are published, the
    first is delivered and acknowledged, then the second is delivered. *)
Definition two_messages : list step :=
  (Client <$> (main default_config calm 1).1)
  ++ [Event (publish (message "{}")); Event (publish (message "7"));
      Event (deliver 0); Event (ack 0 (message "{}")); Event (deliver 0)].

End Samples.

(** ** Claims of the specification that the code does not meet as stated *)
Module Stated.
Import JS Consumer.

Section WithParser.
Variable JSON_parse : string → option value.

(** "For every successfully parsed message, the document handed to the
    store's insert operation is exactly the parsed message content plus
    one injected timestamp field." *)
Definition document_is_content_plus_timestamp : Prop :=
  ∀ env m v, JSON_parse (content m) = Some v →
    ∃ doc x,
      inserted (calls (processMessage JSON_parse env m start).2) = [doc]
      ∧ get_property doc "received_at" = Ok (Some x)
      ∧ ∀ key, key ≠ "received_at" → get_property doc key = get_property v key.

(** "Assigned exactly once at the first successful parse, never
    overwritten when the same message is redelivered and reprocessed
    after a nack." *)
Definition timestamp_kept_on_redelivery : Prop :=
  ∀ first again m d1 d2,
    Nack m false true ∈ calls (redeliver JSON_parse [first] m start) →
    inserted (calls (redeliver JSON_parse [first; again] m start)) = [d1; d2] →
    get_property d2 "received_at" = get_property d1 "received_at".

(** "Every document the pipeline passes to the store insert contains a
    numeric ingestion-timestamp field." *)
Definition every_insert_carries_timestamp : Prop :=
  ∀ env m doc,
    doc ∈ inserted (calls (processMessage JSON_parse env m start).2) →
    ∃ n, get_property doc "received_at" = Ok (Some (VNum n)).

End WithParser.
End Stated.

(** ** Further projections of the calls of the process *)
Module Projections.
Import JS Consumer Process.

(** The connections and store clients on which [close] is called. *)
Definition connection_closes (cs : list call) : list nat :=
  omap (λ c, match c with connection_close k => Some k | _ => None end) cs.

Definition client_closes (cs : list call) : list nat :=
  omap (λ c, match c with client_close k => Some k | _ => None end) cs.

(** The handlers registered, with the connection they are put on. *)
Definition handlers (cs : list call) : list (nat * conn_event) :=
  omap (λ c, match c with connection_on k ev => Some (k, ev) | _ => None end) cs.

(** The subscriptions made. *)
Definition consumes (cs : list call) : list nat :=
  omap (λ c, match c with consume k _ => Some k | _ => None end) cs.

End Projections.

(** ** The change monitor (second script of src/consumer.js)

    It polls the collection the consumer writes to and logs what is
    new.  The store's answer to the query is modelled as the documents
    of the collection whose [received_at] is a number above the
    threshold, in ascending order; [Number(x)] on anything but a number,
    a boolean or null, and [Date.prototype.toISOString] are built-ins
    and come as parameters; [JSON.stringify] stays symbolic. *)
Module Monitor.
Import JS Consumer Process.

Inductive failure : Type :=
| Js (e : error)
| RangeError.            (* toISOString on an invalid date *)

Inductive outcome (A : Type) : Type :=
| Done (a : A)
| Thrown (e : failure)
| Pending
| Exited (code : Z).
Arguments Done {A} a.
Arguments Thrown {A} e.
Arguments Pending {A}.
Arguments Exited {A} code.

(** What a log line of the monitor is made of. *)
Inductive part : Type :=
| Str (s : string)
| Txt (t : text)                 (* a converted value *)
| Stringified (v : value)        (* JSON.stringify(v) *)
| Count (n : nat)
| Message (e : failure).

Inductive client_op : Type := op_construct | op_connect.

#[export] Instance client_op_eq_dec : EqDecision client_op.
Proof. solve_decision. Defined.

Inductive call : Type :=
| connecting (c : Process.call)                  (* a call of the connect loop *)
| toArray (after : Qc) (found : option (list value))
    (* collection.find({received_at: {$gt: after}}).sort({received_at: 1}).toArray()
       and what it resolved to; None when it rejected *)
| say (l : level) (line : list part)
| wait (ms : Qc)
| close                                          (* client.close() *)
| exit (code : Z).

Definition W (A : Type) : Type := list call * outcome A.

#[export] Instance W_ret : MRet W := λ A a, ([], Done a).
#[export] Instance W_bind : MBind W := λ A B f m,
  match m with
  | (cs, Done a) => let (cs', r) := f a in (cs ++ cs', r)
  | (cs, Thrown e) => (cs, Thrown e)
  | (cs, Pending) => (cs, Pending)
  | (cs, Exited code) => (cs, Exited code)
  end.

Definition try_catch_W {A} (body : W A) (handler : failure → W A) : W A :=
  match body with
  | (cs, Thrown e) => let (cs', r) := handler e in (cs ++ cs', r)
  | other => other
  end.

(** [try { body } finally { finalizer }]: the finalizer runs when the
    body has returned or thrown, and its own throw takes over. *)
Definition try_finally_W {A} (body : W A) (finalizer : W unit) : W A :=
  match body with
  | (cs, Pending) => (cs, Pending)
  | (cs, Exited code) => (cs, Exited code)
  | (cs, r) =>
      match finalizer with
      | (cs', Done _) => (cs ++ cs', r)
      | (cs', Thrown e) => (cs ++ cs', Thrown e)
      | (cs', Pending) => (cs ++ cs', Pending)
      | (cs', Exited code) => (cs ++ cs', Exited code)
      end
  end.

Definition tell (c : call) : W unit := ([c], Done tt).

Definition js {A} (r : result A) : W A :=
  match r with
  | Ok a => ([], Done a)
  | Throw e => ([], Thrown (Js e))
  end.

(** The connect loop of the consumer's module [Process], seen from here. *)
Definition connected {A} (p : Process.P A) : W A :=
  (connecting <$> p.1,
   match p.2 with
   | Process.Done a => Done a
   | Process.Thrown e => Thrown (Js e)
   | Process.Pending => Pending
   | Process.Exited code => Exited code
   end).

(** The body of the [try] in the monitor's [connectToMongoDB]: no index
    is created here. *)
Definition monitor_attempt (uri : string) (fails : option client_op) (k : nat)
  : Process.P nat :=
  Process.attempt (Process.new_MongoClient k) StoreError (Process.fails_at fails op_construct);;
  Process.attempt (Process.client_connect k) StoreError (Process.fails_at fails op_connect);;
  Process.do (Process.log info
                [Lit [Chars "Successfully connected to MongoDB at "; Chars uri]]);;
  mret k.

Definition connectToMongoDB (uri : string) (fails : nat → option client_op) (fuel k : nat)
  : Process.P nat :=
  Process.retry (λ k, monitor_attempt uri (fails k) k) "Failed to connect to MongoDB: " fuel k.

(** *** The query *)

Definition received_at_of (d : value) : option Qc :=
  match get_property d "received_at" with
  | Ok (Some (VNum n)) => Some n
  | _ => None
  end.

(** [{received_at: {$gt: t}}]: only a number can be above a number. *)
Definition newer (t : Qc) (d : value) : bool :=
  match received_at_of d with
  | Some n => bool_decide (t < n)%Qc
  | None => false
  end.

(** [{received_at: 1}]: ascending. *)
Definition earlier (d1 d2 : value) : Prop :=
  match received_at_of d1, received_at_of d2 with
  | Some a, Some b => (a ≤ b)%Qc
  | None, _ => True
  | Some _, None => False
  end.

#[export] Instance earlier_dec : RelDecision earlier.
Proof.
  intros d1 d2. unfold earlier.
  destruct (received_at_of d1), (received_at_of d2); apply _.
Defined.

Definition find_newer (t : Qc) (docs : list value) : list value :=
  merge_sort earlier (filter (λ d, newer t d) docs).

(** One turn of the loop, from outside: the clock reading of line 267,
    the collection as the query finds it, and whether the query fails. *)
Record Round : Type := { clock : Z; stored : list value; query_fails : bool }.

Definition query (lastCheckTime : Qc) (r : Round) : W (list value) :=
  if query_fails r
  then ([toArray lastCheckTime None], Thrown (Js StoreError))
  else ([toArray lastCheckTime (Some (find_newer lastCheckTime (stored r)))],
        Done (find_newer lastCheckTime (stored r))).

(** *** Formatting *)

(** [s.replace(pattern, replacement)] with a string pattern: the first
    occurrence is replaced ([replacement] holding no dollar sign). *)
Fixpoint replace_first (pattern replacement s : string) : string :=
  if String.prefix pattern s
  then replacement +:+ String.substring (String.length pattern)
                         (String.length s - String.length pattern) s
  else match s with
       | EmptyString => EmptyString
       | String x rest => String x (replace_first pattern replacement rest)
       end.

(** TimeClip, as [new Date(number)] applies it: NaN and anything beyond
    8.64e15 ms give an invalid date, anything else is cut to an integer. *)
Definition TimeClip (x : option Qc) : option Z :=
  match x with
  | None => None
  | Some q =>
      if (Z.abs (Qnum q) <=? 8640000000000000 * Zpos (Qden q))%Z
      then Some (Z.quot (Qnum q) (Zpos (Qden q)))
      else None
  end.

(** [x / 1000] *)
Definition div1000 (x : option Qc) : option Qc :=
  match x with
  | Some q => Some (q / Q2Qc 1000)%Qc
  | None => None
  end.

Section WithBuiltins.

(** [Number(v)] for a string, an array or an object; [None] is NaN. *)
Variable ToNumber_other : value → result (option Qc).

(** [toISOString] of a valid date, by its time value. *)
Variable toISOString : Z → string.

Definition ToNumber (v : value) : result (option Qc) :=
  match v with
  | VNull => Ok (Some (Q2Qc 0))
  | VBool true => Ok (Some (Q2Qc 1))
  | VBool false => Ok (Some (Q2Qc 0))
  | VNum n => Ok (Some n)
  | _ => ToNumber_other v
  end.

(** [new Date(ts).toISOString().replace('T', ' ').substring(0, 19)] *)
Definition formatTimestamp (ts : option Qc) : W string :=
  match TimeClip ts with
  | Some tv => mret (String.substring 0 19 (replace_first "T" " " (toISOString tv)))
  | None => ([], Thrown RangeError)
  end.

(** [change.key || {}] *)
Definition field_or_empty (change : value) (key : string) : result value :=
  x ← get_property change key;
  mret (or_default x (VObj ∅)).

(** [operation === name] *)
Definition equals (operation : value) (name : string) : bool :=
  match operation with
  | VStr s => bool_decide (s = name)
  | _ => false
  end.

(** The body of the [for] loop after [count++]. *)
Definition report (change : value) : W unit :=
  database ← js (field_or_unknown change "database");
  table ← js (field_or_unknown change "table");
  operation ← js (field_or_unknown change "type");
  ts ← js (x ← get_property change "ts"; ToNumber (or_default x (VNum (Q2Qc 0))));
  timestamp ← formatTimestamp (div1000 ts);
  if equals operation "insert" then
    data ← js (field_or_empty change "data");
    db ← js (ToString database);
    tb ← js (ToString table);
    tell (say info [Str "INSERT into "; Txt db; Str "."; Txt tb; Str " at ";
                    Str timestamp; Str ": "; Stringified data])
  else if equals operation "update" then
    data ← js (field_or_empty change "data");
    old ← js (field_or_empty change "old");
    db ← js (ToString database);
    tb ← js (ToString table);
    tell (say info [Str "UPDATE in "; Txt db; Str "."; Txt tb; Str " at ";
                    Str timestamp; Str ":"]);;
    tell (say info [Str "  New data: "; Stringified data]);;
    tell (say info [Str "  Old data: "; Stringified old])
  else if equals operation "delete" then
    data ← js (field_or_empty change "data");
    db ← js (ToString database);
    tb ← js (ToString table);
    tell (say info [Str "DELETE from "; Txt db; Str "."; Txt tb; Str " at ";
                    Str timestamp; Str ": "; Stringified data])
  else
    op ← js (ToString operation);
    db ← js (ToString database);
    tb ← js (ToString table);
    tell (say info [Str "Unknown operation "; Txt op; Str " on "; Txt db; Str "."; Txt tb;
                    Str " at "; Str timestamp; Str ": "; Stringified change]).

(** [for (const change of newChanges) { count++; ... }] *)
Fixpoint each (newChanges : list value) (count : nat) : W nat :=
  match newChanges with
  | [] => mret count
  | change :: rest => report change;; each rest (S count)
  end.

(** One turn of [while (true)]; it returns the next [lastCheckTime]. *)
Definition turn (interval : Qc) (lastCheckTime : Qc) (r : Round) : W Qc :=
  let currentTime := seconds (clock r) in
  newChanges ← query lastCheckTime r;
  count ← each newChanges 0;
  tell (say info match count with
                 | O => [Str "No new changes found"]
                 | S _ => [Str "Found "; Count count; Str " new changes"]
                 end);;
  tell (wait (interval * Q2Qc 1000)%Qc);;
  mret currentTime.

(** The loop, for the turns observed. *)
Fixpoint loop (interval : Qc) (lastCheckTime : Qc) (rounds : list Round) : W unit :=
  match rounds with
  | [] => ([], Pending)
  | r :: rest => t ← turn interval lastCheckTime r; loop interval t rest
  end.

(** Lines 262 to 317 of [monitorChanges]: what follows the connection. *)
Definition watch (interval : Qc) (started : Z) (rounds : list Round) (close_fails : bool)
  : W unit :=
  let lastCheckTime := seconds started in
  try_finally_W
    (try_catch_W (loop interval lastCheckTime rounds)
       (λ error, tell (say error_level [Str "Error monitoring changes: "; Message error])))
    (([close], if close_fails then Thrown (Js StoreError) else Done tt);;
     tell (say info [Str "MongoDB connection closed"])).

Record Outside : Type := {
  uri : string;
  client_fails : nat → option client_op;
  started : Z;                   (* Date.now() of line 262 *)
  rounds : list Round;
  close_fails : bool
}.

Definition monitorChanges (interval : Qc) (o : Outside) (fuel : nat) : W unit :=
  connected (connectToMongoDB (uri o) (client_fails o) fuel 0);;
  watch interval (started o) (rounds o) (close_fails o).

(** [main] of the monitor. *)
Definition main (o : Outside) (fuel : nat) : W unit :=
  try_catch_W
    (tell (say info [Str "Starting MongoDB change monitor..."]);;
     monitorChanges (Q2Qc 5) o fuel)
    (λ error,
       tell (say error_level [Str "Failed to start monitor: "; Message error]);;
       ([exit 1], Exited 1)).

(** The SIGINT handler of the monitor. *)
Definition on_SIGINT : W unit :=
  tell (say info [Str "Monitoring stopped by user"]);;
  ([exit 0], Exited 0).

End WithBuiltins.

(** The queries made, each with its threshold and what it found. *)
Definition queries (cs : list call) : list (Qc * option (list value)) :=
  omap (λ c, match c with toArray t found => Some (t, found) | _ => None end) cs.

Definition exits (cs : list call) : list Z :=
  omap (λ c, match c with exit code => Some code | _ => None end) cs.

(** A piece of the monitor that does nothing but log, and either
    returns or throws. *)
Definition logs_only {A} (m : W A) : Prop :=
  Forall (λ c, ∃ l line, c = say l line) m.1
  ∧ match m.2 with
    | Done _ | Thrown _ => True
    | Pending | Exited _ => False
    end.

End Monitor.

(** ** The test-traffic workers (src/unnamed/part_001)

    Both scripts run their operations in batches over one connection.
    The connection loop and the loop over the batches are modelled as
    they are written.  What a single promise of a batch does on the
    database, and what it logs, is outside: each promise comes with how
    it settles.

    A number is a double that holds an integer, or NaN: this is what
    [parseInt] of a short argument gives.  The arithmetic is the one on
    integers, which is the doubles' up to 2^53. *)
Module Worker.
Import JS Consumer.

Inductive num : Type := Int (z : Z) | NaN.

(** [a < b] *)
Definition lt (a b : num) : bool :=
  match a, b with
  | Int x, Int y => (x <? y)%Z
  | _, _ => false
  end.

(** [a + b] *)
Definition add (a b : num) : num :=
  match a, b with
  | Int x, Int y => Int (x + y)
  | _, _ => NaN
  end.

(** [a - b] *)
Definition sub (a b : num) : num :=
  match a, b with
  | Int x, Int y => Int (x - y)
  | _, _ => NaN
  end.

(** [Math.min(a, b)] *)
Definition min (a b : num) : num :=
  match a, b with
  | Int x, Int y => Int (Z.min x y)
  | _, _ => NaN
  end.

(** [x || d] on numbers: 0 and NaN are falsy. *)
Definition or_number (x d : num) : num :=
  match x with
  | Int 0 | NaN => d
  | Int _ => x
  end.

(** How often [for (let j = 0; j < batchSize; j++)] runs its body. *)
Definition iterations (batchSize : num) : nat :=
  match batchSize with
  | Int b => Z.to_nat b
  | NaN => O
  end.

(** How a promise of a batch settles: rejected, or resolved with a user
    id, with null or with undefined. *)
Inductive settled : Type := rejected | resolved (userId : option Z).

(** [Boolean(result)]: null, undefined and 0 are falsy. *)
Definition truthy (s : settled) : bool :=
  match s with
  | resolved (Some z) => negb (z =? 0)%Z
  | _ => false
  end.

Definition is_rejected (s : settled) : bool :=
  match s with
  | rejected => true
  | resolved _ => false
  end.

(** What a run does, in order.  [retrying] is the warning of the
    connection loop; [announced] is a line that prints the number of
    operations and the concurrency (lines 139, 193 and 530), [starting]
    the line that prints the concurrency alone (line 445).  A line that
    prints the batch number [Math.floor(i / concurrency) + 1] is
    recorded with [i] and [concurrency]; [launched p] stands for the
    inner loop that has pushed [p] promises.  [complained prefix] is
    [logger.error] of the prefix and the message of the error caught. *)
Inductive event : Type :=
| createConnection
| retrying
| pause (ms : Qc)
| announced (numOperations concurrency : num)
| starting (concurrency : num)
| running (i concurrency batchSize : num)
| launched (promises : nat)
| executing (i concurrency batchSize : num)
| completed (i concurrency : num) (successful : option nat)
| waiting (i concurrency : num) (interval : Qc)
| connection_end
| said (l : level) (line : string)
| complained (prefix : string)
| exit (code : Z).

Inductive outcome (A : Type) : Type :=
| Done (a : A)
| Rejected
| Pending
| Exited (code : Z).
Arguments Done {A} a.
Arguments Rejected {A}.
Arguments Pending {A}.
Arguments Exited {A} code.

Definition R (A : Type) : Type := (list event * outcome A)%type.

#[export] Instance R_ret : MRet R := λ A a, ([], Done a).
#[export] Instance R_bind : MBind R := λ A B f m,
  match m with
  | (es, Done a) => let (es', r) := f a in (es ++ es', r)
  | (es, Rejected) => (es, Rejected)
  | (es, Pending) => (es, Pending)
  | (es, Exited code) => (es, Exited code)
  end.

Definition emit (e : event) : R unit := ([e], Done tt).

Definition reject {A} : R A := ([], Rejected).

Definition process_exit {A} (code : Z) : R A := ([exit code], Exited code).

(** [try { body } finally { finalizer }]: a finalizer that throws
    replaces the outcome of the body. *)
Definition finally (body finalizer : R unit) : R unit :=
  match body with
  | (es, Done a) => let (es', r) := finalizer in (es ++ es', r)
  | (es, Rejected) =>
      let (es', r) := finalizer in
      (es ++ es', match r with Done _ => Rejected | other => other end)
  | other => other
  end.

(** [try { body } catch (error) { handler }], and [promise.catch(handler)]. *)
Definition catch (body handler : R unit) : R unit :=
  match body with
  | (es, Rejected) => let (es', r) := handler in (es ++ es', r)
  | other => other
  end.

(** [await Promise.all(promises)]: rejected when one of them is. *)
Definition all (settlements : list settled) : R (list settled) :=
  if existsb is_rejected settlements then reject else mret settlements.

(** What is outside a run: whether attempt [n] to connect fails, how
    promise [j] of the batch of round [k] settles, and whether
    [connection.end()] fails. *)
Record Outside : Type := {
  connect_fails : nat → bool;
  settle : nat → nat → settled;
  end_fails : bool
}.

Section Runner.

Variable out : Outside.

(** [connectToMySQL] (lines 30 to 48 and 239 to 257), observed for
    [fuel] attempts, of which this is attempt [n]. *)
Fixpoint connectToMySQL (fuel n : nat) : R unit :=
  match fuel with
  | O => ([], Pending)
  | S fuel' =>
      emit createConnection;;
      if connect_fails out n then
        emit retrying;;
        emit (pause (Q2Qc 5000));;
        connectToMySQL fuel' (S n)
      else emit (said info "Successfully connected to MySQL")
  end.

(** [opening]: the first line of the [try]; [pauses]: the interval,
    where the loop sleeps between batches; [counts]: whether the closing
    line of a batch counts the truthy results. *)
Variable opening : event.
Variable pauses : option Qc.
Variable counts : bool.
Variable numOperations concurrency : num.

(** [for (let i = 0; i < numOperations; i += concurrency) { ... }]
    observed for [fuel] rounds, of which this is round [k]. *)
Fixpoint batch_loop (fuel k : nat) (i : num) : R unit :=
  match fuel with
  | O => ([], Pending)
  | S fuel' =>
      if lt i numOperations then
        let batchSize := min concurrency (sub numOperations i) in
        emit (running i concurrency batchSize);;
        emit (launched (iterations batchSize));;
        emit (executing i concurrency batchSize);;
        results ← all (settle out k <$> seq 0 (iterations batchSize));
        emit (completed i concurrency
                (if counts then Some (length (filter (λ s, truthy s = true) results))
                 else None));;
        match pauses with
        | Some interval =>
            if lt (add i batchSize) numOperations then
              emit (waiting i concurrency interval);;
              emit (pause (interval * Q2Qc 1000)%Qc)
            else mret tt
        | None => mret tt
        end;;
        batch_loop fuel' (S k) (add i concurrency)
      else mret tt
  end.

(** The [finally] block. *)
Definition finalizer : R unit :=
  emit connection_end;;
  if end_fails out then reject else emit (said info "MySQL connection closed").

(** The body the two runners share. *)
Definition run (fuel : nat) : R unit :=
  connectToMySQL fuel 0;;
  finally (emit opening;; batch_loop fuel 0 (Int 0)) finalizer.

End Runner.

(** [runParallelUpserts] (lines 135 to 182) *)
Definition runParallelUpserts (out : Outside) (numOperations concurrency : num)
    (fuel : nat) : R unit :=
  run out (announced numOperations concurrency) None true numOperations concurrency fuel.

(** [runOperations] (lines 441 to 500) *)
Definition runOperations (out : Outside) (numOperations : num) (interval : Qc)
    (concurrency : num) (fuel : nat) : R unit :=
  run out (starting concurrency) (Some interval) false numOperations concurrency fuel.

(** [main] of the parallel worker (lines 187 to 202); [first] is
    [parseInt(args[0])], [concurrency] is
    [parseInt(process.env.CONCURRENCY || args[1] || '5')]. *)
Definition parallel_main (out : Outside) (first concurrency : num) (fuel : nat) : R unit :=
  let numOperations := or_number first (Int 10) in
  emit (announced numOperations concurrency);;
  catch (runParallelUpserts out numOperations concurrency fuel;;
         emit (said info "All operations completed successfully!"))
        (emit (complained "Error during execution: ");;
         process_exit 1).

(** [main] of the other worker (lines 505 to 532) with the [catch] of
    line 535, after the arguments are parsed. *)
Definition operations_main (out : Outside) (operations : num) (interval : Qc)
    (concurrency : num) (fuel : nat) : R unit :=
  catch (emit (announced operations concurrency);;
         runOperations out operations interval concurrency fuel)
        (emit (complained "Failed to start worker: ");;
         process_exit 1).

(** What a run has launched, batch by batch. *)
Definition launches (es : list event) : list nat :=
  omap (λ e, match e with launched n => Some n | _ => None end) es.

(** The values of [i] at which a batch was begun. *)
Definition begun_at (es : list event) : list num :=
  omap (λ e, match e with running i _ _ => Some i | _ => None end) es.

(** The values of [i] in the lines that announce a wait (line 490). *)
Definition wait_lines (es : list event) : list num :=
  omap (λ e, match e with waiting i _ _ => Some i | _ => None end) es.

(** The batches begun and the sleeps made, in their order: [inl i] for
    the batch begun at [i], [inr ms] for
    [await new Promise(resolve => setTimeout(resolve, ms))]. *)
Definition rhythm (es : list event) : list (num + Qc) :=
  omap (λ e, match e with
             | running i _ _ => Some (inl i)
             | pause ms => Some (inr ms)
             | _ => None
             end) es.

(** The batches of [l] with one sleep of [ms] between each of them and
    the next. *)
Fixpoint between (ms : Qc) (l : list num) : list (num + Qc) :=
  match l with
  | [] => []
  | i :: rest =>
      inl i :: match rest with
               | [] => []
               | _ :: _ => inr ms :: between ms rest
               end
  end.

(** How often the connection was ended. *)
Definition ends (es : list event) : nat :=
  length (omap (λ e, match e with connection_end => Some tt | _ => None end) es).

(** The number of batches of [n] operations, [c] at a time. *)
Definition batches (n c : Z) : nat := Z.to_nat ((n + c - 1) / c).

End Worker.

(** ** Sample runs of the workers *)
Module WorkerSamples.
Import Worker.

(** The database is reachable at once and every operation returns the
    id 1. *)
Definition steady : Outside :=
  {| connect_fails := λ _, false;
     settle := λ _ _, resolved (Some 1%Z);
     end_fails := false |}.

(** The second attempt to connect succeeds; every operation finds
    nothing to do and returns null. *)
Definition late : Outside :=
  {| connect_fails := λ n, bool_decide (n = 0%nat);
     settle := λ _ _, resolved None;
     end_fails := false |}.

(** The second attempt to connect succeeds; the first promise of the
    second batch is rejected. *)
Definition one_rejection : Outside :=
  {| connect_fails := λ n, bool_decide (n = 0%nat);
     settle := λ k j, if bool_decide (k = 1%nat ∧ j = 0%nat) then rejected
                      else resolved None;
     end_fails := false |}.

End WorkerSamples.

(** ** Further sample inputs *)
Module MoreSamples.
Import JS Consumer Process Monitor.

(** The store refuses three times in the three rounds observed. *)
Definition store_unreachable : Process.Outside :=
  {| store_fails := λ _, Some op_client_connect; broker_fails := λ _, None;
     prefetch_goes := goes_well; consume_goes := goes_well;
     connection_close_fails := false; client_close_fails := false |}.

(** An insert event as the consumer stores it when it processes it at
    [t] ms. *)
Definition stored_at (t : Z) : value :=
  VObj (<["received_at" := VNum (seconds t)]> {[ "type" := VStr "insert" ]}).

(** Stand-ins for the two built-ins in the closed examples: every
    string, array or object converts to NaN, and every date prints as
    20 January 1970, 13:26:40. *)
Definition sample_ToNumber : value → result (option Qc) := λ _, Ok None.
Definition sample_toISOString : Z → string := λ _, "1970-01-20T13:26:40.000Z".

Definition poll (clock : Z) (stored : list value) : Round :=
  {| Monitor.clock := clock; Monitor.stored := stored; query_fails := false |}.

Definition failing_poll (clock : Z) : Round :=
  {| Monitor.clock := clock; Monitor.stored := []; query_fails := true |}.

End MoreSamples.

(** * Properties of [processMessage] *)
Module ConsumerFacts.
Import JS Consumer Samples.

Ltac unfold_run :=
  unfold on_delivery, on_delivery_under, processMessage, processMessage_under,
    try_catch, parse, insertOne, channel_call, call, lift,
    mbind, M_bind, mret, M_ret in *;
  cbn [calls documents fst snd channel_closed applied_unreported no_faults] in *.

Lemma inserted_app (a b : list action) : inserted (a ++ b) = inserted a ++ inserted b.
Proof. unfold inserted. apply omap_app. Qed.

Lemma set_property_object v key x :
  is_object v = true →
  set_property v key x =
    Ok match v with
       | VObj props => VObj (<[key := x]> props)
       | VArr elems props => VArr elems (<[key := x]> props)
       | _ => v
       end.
Proof. destruct v; cbn; congruence. Qed.

Lemma get_set_eq v key x doc :
  is_object v = true → set_property v key x = Ok doc →
  get_property doc key = Ok (Some x).
Proof.
  destruct v; cbn; try congruence; intros _ [= <-]; cbn; by rewrite lookup_insert_eq.
Qed.

Lemma get_set_ne v k x doc key :
  set_property v k x = Ok doc → key ≠ k → get_property doc key = get_property v key.
Proof.
  destruct v; cbn; try congruence; intros [= <-] Hne; cbn; try done;
    by rewrite lookup_insert_ne.
Qed.

Section WithParser.
Variable JSON_parse : string → option value.

(** What one run does, by cases: the assignment, the insert, the log
    line. *)
Lemma processMessage_parsed env m w v :
  JSON_parse (content m) = Some v →
  processMessage JSON_parse env m w =
    (Ok tt,
     match set_property v "received_at" (VNum (seconds (now env))) with
     | Throw e => {| calls := calls w ++ nack_calls m e; documents := documents w |}
     | Ok doc =>
         if accepts env doc then
           match log_line doc with
           | Ok line => {| calls := calls w ++ [InsertOne doc; Log info line; Ack m];
                           documents := documents w ++ [doc] |}
           | Throw e => {| calls := calls w ++ InsertOne doc :: nack_calls m e;
                           documents := documents w ++ [doc] |}
           end
         else {| calls := calls w ++ InsertOne doc :: nack_calls m StoreError;
                 documents := documents w |}
     end).
Proof.
  intros Hp. unfold_run. rewrite Hp. cbn.
  destruct (set_property v _ _) as [doc|e]; cbn.
  - destruct (accepts env doc); cbn.
    + destruct (log_line doc); cbn; by rewrite <- !app_assoc.
    + by rewrite <- !app_assoc.
  - by rewrite <- !app_assoc.
Qed.

Lemma processMessage_malformed env m w :
  JSON_parse (content m) = None →
  processMessage JSON_parse env m w =
    (Ok tt, {| calls := calls w ++ nack_calls m SyntaxError; documents := documents w |}).
Proof.
  intros Hp. unfold_run. rewrite Hp. cbn. by rewrite <- !app_assoc.
Qed.

(** On a channel that stays open [processMessage] never rejects: the
    handler of line 155 stays unused. *)
Lemma processMessage_returns env m w :
  ∃ w', processMessage JSON_parse env m w = (Ok tt, w').
Proof.
  destruct (JSON_parse (content m)) as [v|] eqn:Hp.
  - rewrite (processMessage_parsed _ _ _ _ Hp). eauto.
  - rewrite (processMessage_malformed _ _ _ Hp). eauto.
Qed.

Lemma on_delivery_processMessage env m w :
  on_delivery JSON_parse env (Some m) w = processMessage JSON_parse env m w.
Proof.
  destruct (processMessage_returns env m w) as [w' Hw].
  unfold on_delivery, on_delivery_under, processMessage, try_catch in *. by rewrite Hw.
Qed.

(** Redelivery of a malformed body: one pair of calls per delivery. *)
Lemma redeliver_malformed envs m w :
  JSON_parse (content m) = None →
  redeliver JSON_parse envs m w =
    {| calls := calls w ++ flat_map (λ _, nack_calls m SyntaxError) envs;
       documents := documents w |}.
Proof.
  intros Hp. revert w. induction envs as [|env envs IH]; intros w.
  - cbn. rewrite app_nil_r. by destruct w.
  - cbn [redeliver flat_map]. rewrite on_delivery_processMessage.
    rewrite (processMessage_malformed _ _ _ Hp). cbn [snd].
    rewrite IH. cbn [calls documents]. by rewrite <- !app_assoc.
Qed.

(** C2.  A message whose body is malformed JSON is, on every delivery,
    negatively acknowledged with requeue and nothing else: it is never
    acknowledged, no insert is attempted for it, and the collection is
    left as it was. *)
Theorem malformed_always_requeued envs m w :
  JSON_parse (content m) = None →
  ∃ new,
    calls (redeliver JSON_parse envs m w) = calls w ++ new
    ∧ documents (redeliver JSON_parse envs m w) = documents w
    ∧ inserted new = []
    ∧ acks new = []
    ∧ nacks new = replicate (length envs) (m, false, true).
Proof.
  intros Hp. rewrite (redeliver_malformed _ _ _ Hp). cbn [calls documents].
  eexists; split; [reflexivity|]. split; [reflexivity|].
  induction envs as [|e envs IH]; [done|].
  destruct IH as (Hi & Ha & Hn). cbn [flat_map].
  unfold inserted, acks, nacks in *. rewrite !omap_app, Hi, Ha, Hn. done.
Qed.

(** A [type] (or [database], or [table]) that is an object with an own
    [toString] property cannot be put into the log line. *)
Lemma log_line_unprintable_type props inner x :
  props !! "type" = Some (VObj inner) → inner !! "toString" = Some x →
  log_line (VObj props) = Throw TypeError.
Proof.
  intros Ht Hx. unfold log_line, field_or_unknown. cbn.
  rewrite Ht. cbn. unfold OrdinaryToPrimitive. rewrite Hx.
  by destruct (inner !! "valueOf").
Qed.

(** The insert succeeds, the log line cannot be built, the catch block
    requeues the message whose document is already in the collection. *)
Lemma unprintable_type_requeued_after_insert env m w props inner x :
  JSON_parse (content m) = Some (VObj props) →
  props !! "type" = Some (VObj inner) → inner !! "toString" = Some x →
  accepts env (VObj (<["received_at" := VNum (seconds (now env))]> props)) = true →
  processMessage JSON_parse env m w =
    (Ok tt,
     {| calls := calls w
                 ++ InsertOne (VObj (<["received_at" := VNum (seconds (now env))]> props))
                    :: nack_calls m TypeError;
        documents := documents w
                     ++ [VObj (<["received_at" := VNum (seconds (now env))]> props)] |}).
Proof.
  intros Hp Ht Hx Hacc. rewrite (processMessage_parsed _ _ _ _ Hp).
  cbn [set_property]. rewrite Hacc.
  rewrite (log_line_unprintable_type _ inner x); [done| |done].
  by rewrite lookup_insert_ne.
Qed.

(** Requeued, the message comes back, and each delivery stores one more
    copy of it without ever acknowledging it. *)
Lemma unprintable_type_stored_on_every_delivery envs m w props inner x :
  JSON_parse (content m) = Some (VObj props) →
  props !! "type" = Some (VObj inner) → inner !! "toString" = Some x →
  Forall (λ env, ∀ doc, accepts env doc = true) envs →
  documents (redeliver JSON_parse envs m w)
  = documents w ++ ((λ env, stamped (VObj props) (seconds (now env))) <$> envs)
  ∧ ∃ new, calls (redeliver JSON_parse envs m w) = calls w ++ new
           ∧ acks new = []
           ∧ nacks new = replicate (length envs) (m, false, true).
Proof.
  intros Hp Ht Hx Hacc. revert w.
  induction Hacc as [|env envs Henv _ IH]; intros w.
  - cbn. rewrite app_nil_r. split; [done|]. exists []. by rewrite app_nil_r.
  - cbn [redeliver]. rewrite on_delivery_processMessage.
    rewrite (unprintable_type_requeued_after_insert _ _ _ _ _ _ Hp Ht Hx (Henv _)).
    cbn [snd]. destruct (IH {| calls := calls w
                 ++ InsertOne (VObj (<["received_at" := VNum (seconds (now env))]> props))
                    :: nack_calls m TypeError;
        documents := documents w
                     ++ [VObj (<["received_at" := VNum (seconds (now env))]> props)] |})
      as (Hd & new & Hc & Ha & Hn).
    cbn [calls documents] in Hd, Hc. rewrite Hd, Hc. split.
    + by rewrite <- app_assoc.
    + eexists. split; [by rewrite <- app_assoc|].
      unfold acks, nacks in *. rewrite !omap_app, Ha, Hn. done.
Qed.

(** The half of C1 that holds: an acknowledgement is made only after the
    store has accepted the document, and then nothing is requeued. *)
Lemma ack_only_after_insert env m w new :
  calls (processMessage JSON_parse env m w).2 = calls w ++ new →
  acks new ≠ [] →
  ∃ doc line,
    new = [InsertOne doc; Log info line; Ack m]
    ∧ accepts env doc = true
    ∧ documents (processMessage JSON_parse env m w).2 = documents w ++ [doc].
Proof.
  intros Hc Ha.
  destruct (JSON_parse (content m)) as [v|] eqn:Hp.
  - rewrite (processMessage_parsed _ _ _ _ Hp) in *. cbn [snd] in *.
    destruct (set_property v _ _) as [doc|e]; cbn [calls documents] in *.
    + destruct (accepts env doc) eqn:Hacc; cbn [calls documents] in *.
      * destruct (log_line doc) as [line|e]; cbn [calls documents] in *;
          apply app_inv_head in Hc; subst new; [by eauto|done].
      * apply app_inv_head in Hc; by subst new.
    + apply app_inv_head in Hc; by subst new.
  - rewrite (processMessage_malformed _ _ _ Hp) in *. cbn [snd calls] in *.
    apply app_inv_head in Hc; by subst new.
Qed.

Lemma inserted_object env m w v :
  JSON_parse (content m) = Some v → is_object v = true →
  inserted (calls (processMessage JSON_parse env m w).2)
  = inserted (calls w) ++ [stamped v (seconds (now env))].
Proof.
  intros Hp Hv. rewrite (processMessage_parsed _ _ _ _ Hp). cbn [snd].
  rewrite (set_property_object _ _ _ Hv). fold (stamped v (seconds (now env))).
  destruct (accepts env _); [destruct (log_line _)|]; cbn [calls];
    by rewrite inserted_app.
Qed.

(** C3, amended.  When the body parses to a JSON object (or array), the
    value handed to [insertOne] is the parsed content with the property
    [received_at] set to the clock reading in seconds, replacing a
    property of that name if the message had one: every other property
    (and the elements of an array) is as parsed, and it is the only
    value handed to [insertOne] in that run. *)
Theorem document_is_object_plus_received_at env m w v :
  JSON_parse (content m) = Some v → is_object v = true →
  ∃ doc,
    inserted (calls (processMessage JSON_parse env m w).2) = inserted (calls w) ++ [doc]
    ∧ (∀ props, v = VObj props →
         doc = VObj (<["received_at" := VNum (seconds (now env))]> props))
    ∧ (∀ elems props, v = VArr elems props →
         doc = VArr elems (<["received_at" := VNum (seconds (now env))]> props))
    ∧ get_property doc "received_at" = Ok (Some (VNum (seconds (now env))))
    ∧ (∀ key, key ≠ "received_at" → get_property doc key = get_property v key).
Proof.
  intros Hp Hv. exists (stamped v (seconds (now env))).
  split; [by apply inserted_object|].
  pose proof (set_property_object v "received_at" (VNum (seconds (now env))) Hv) as Hs.
  fold (stamped v (seconds (now env))) in Hs.
  split; [by intros ? ->|]. split; [by intros ? ? ->|].
  split; [by eapply get_set_eq|].
  intros key Hk. by eapply get_set_ne.
Qed.

Lemma redeliver_object envs m w v :
  JSON_parse (content m) = Some v → is_object v = true →
  inserted (calls (redeliver JSON_parse envs m w))
  = inserted (calls w) ++ ((λ env, stamped v (seconds (now env))) <$> envs).
Proof.
  intros Hp Hv. revert w. induction envs as [|env envs IH]; intros w.
  - cbn. by rewrite app_nil_r.
  - cbn [redeliver]. rewrite on_delivery_processMessage, IH.
    rewrite (inserted_object _ _ _ _ Hp Hv). by rewrite <- app_assoc.
Qed.

(** C4, amended.  [received_at] is the consumer's clock in seconds at the
    time a delivery is processed.  Nothing is kept from one delivery to
    the next: each time the message is delivered, the document handed to
    [insertOne] carries the clock reading of that delivery. *)
Theorem received_at_is_time_of_each_delivery envs m w v :
  JSON_parse (content m) = Some v → is_object v = true →
  (λ doc, get_property doc "received_at") <$> inserted (calls (redeliver JSON_parse envs m w))
  = ((λ doc, get_property doc "received_at") <$> inserted (calls w))
    ++ ((λ env, Ok (Some (VNum (seconds (now env))))) <$> envs).
Proof.
  intros Hp Hv. rewrite (redeliver_object _ _ _ _ Hp Hv), fmap_app.
  f_equal. rewrite <- list_fmap_compose. apply list_fmap_ext.
  intros _ env _. cbn. eapply get_set_eq; [done|]. by apply set_property_object.
Qed.

(** C10, amended.  A value is handed to [insertOne] only after the body
    has parsed to something other than null and line 109 has run on it;
    when the body is a JSON object (or array) that value carries the
    number [Date.now() / 1000] under [received_at]. *)
Theorem inserted_object_carries_received_at env m w new doc :
  calls (processMessage JSON_parse env m w).2 = calls w ++ new →
  doc ∈ inserted new →
  ∃ v, JSON_parse (content m) = Some v
       ∧ v ≠ VNull
       ∧ set_property v "received_at" (VNum (seconds (now env))) = Ok doc
       ∧ (is_object v = true →
          get_property doc "received_at" = Ok (Some (VNum (seconds (now env))))).
Proof.
  intros Hc Hin.
  destruct (JSON_parse (content m)) as [v|] eqn:Hp.
  - exists v. split; [done|].
    rewrite (processMessage_parsed _ _ _ _ Hp) in Hc. cbn [snd] in Hc.
    destruct (set_property v _ _) as [d|e] eqn:Hs.
    + assert (doc = d) as ->.
      { destruct (accepts env d); [destruct (log_line d)|]; cbn [calls] in Hc;
          apply app_inv_head in Hc; subst new; cbn in Hin;
          by apply list_elem_of_singleton in Hin. }
      split; [by intros ->|]. split; [done|].
      intros Hv. by eapply get_set_eq.
    + cbn [calls] in Hc. apply app_inv_head in Hc. subst new. cbn in Hin.
      by apply elem_of_nil in Hin.
  - rewrite (processMessage_malformed _ _ _ Hp) in Hc. cbn [snd calls] in Hc.
    apply app_inv_head in Hc. subst new. cbn in Hin. by apply elem_of_nil in Hin.
Qed.

Lemma field_or_unknown_absent v key :
  get_property v key = Ok None → field_or_unknown v key = Ok (VStr "unknown").
Proof. unfold field_or_unknown. by intros ->. Qed.

Lemma field_or_unknown_prints v key :
  v ≠ VNull →
  (∀ x, get_property v key = Ok (Some x) → ∃ t, ToString x = Ok t) →
  ∃ shown t, field_or_unknown v key = Ok shown ∧ ToString shown = Ok t
             ∧ (get_property v key = Ok None → t = [Chars "unknown"]).
Proof.
  intros Hv Hx. unfold field_or_unknown.
  destruct (get_property v key) as [[x|]|e] eqn:Hg.
  - destruct (Hx x eq_refl) as [t Ht].
    change (x ← Ok (Some x); mret (or_default x (VStr "unknown")))
      with (Ok (or_default (Some x) (VStr "unknown"))).
    unfold or_default. destruct (ToBoolean (Some x)).
    + exists x, t. by repeat split.
    + exists (VStr "unknown"), [Chars "unknown"]. by repeat split.
  - exists (VStr "unknown"), [Chars "unknown"]. by repeat split.
  - by destruct v.
Qed.

(** C9.  A parsed message without [database] or without [table] is
    processed like any other: provided the store accepts the document
    and the fields that are present can be converted to text, the
    message is logged and acknowledged, not requeued, and the log line
    shows "unknown" for each of the two that is absent. *)
Theorem absent_database_or_table_is_unknown env m w v doc :
  JSON_parse (content m) = Some v →
  set_property v "received_at" (VNum (seconds (now env))) = Ok doc →
  get_property v "database" = Ok None ∨ get_property v "table" = Ok None →
  accepts env doc = true →
  (∀ key x, key ∈ ["database"; "table"; "type"] →
            get_property v key = Ok (Some x) → ∃ t, ToString x = Ok t) →
  ∃ ty db tb,
    processMessage JSON_parse env m w
    = (Ok tt, {| calls := calls w ++ [InsertOne doc; Log info (processed_line ty db tb); Ack m];
                 documents := documents w ++ [doc] |})
    ∧ (get_property v "database" = Ok None → db = [Chars "unknown"])
    ∧ (get_property v "table" = Ok None → tb = [Chars "unknown"]).
Proof.
  intros Hp Hs Habs Hacc Hprint.
  assert (doc ≠ VNull) as Hd by (destruct v; cbn in Hs; congruence).
  assert (∀ key, key ∈ ["database"; "table"; "type"] →
            get_property doc key = get_property v key) as Hsame.
  { intros key Hk. eapply get_set_ne; [done|]. intros ->.
    rewrite !elem_of_cons, elem_of_nil in Hk. by destruct Hk as [|[|[|]]]. }
  assert ("database" ∈ ["database"; "table"; "type"]) as H1
    by (rewrite !elem_of_cons; auto).
  assert ("table" ∈ ["database"; "table"; "type"]) as H2
    by (rewrite !elem_of_cons; auto).
  assert ("type" ∈ ["database"; "table"; "type"]) as H3
    by (rewrite !elem_of_cons; auto).
  destruct (field_or_unknown_prints doc "database" Hd) as (d & db & Hfd & Htd & Hud).
  { rewrite (Hsame _ H1). intros x. by apply Hprint. }
  destruct (field_or_unknown_prints doc "table" Hd) as (t & tb & Hft & Htt & Hut).
  { rewrite (Hsame _ H2). intros x. by apply Hprint. }
  destruct (field_or_unknown_prints doc "type" Hd) as (y & ty & Hfy & Hty & _).
  { rewrite (Hsame _ H3). intros x. by apply Hprint. }
  exists ty, db, tb. split; [|split].
  - rewrite (processMessage_parsed _ _ _ _ Hp), Hs, Hacc.
    unfold log_line. rewrite Hfd, Hft, Hfy. cbn. by rewrite Hty, Htd, Htt.
  - by rewrite <- (Hsame _ H1).
  - by rewrite <- (Hsame _ H2).
Qed.

End WithParser.

Lemma malformed_always_requeued_witness :
  sample_parse (content (message "not json")) = None
  ∧ ∃ new,
      calls (redeliver sample_parse [store_up 1000; store_up 2000] (message "not json") start)
        = calls start ++ new
      ∧ documents (redeliver sample_parse [store_up 1000; store_up 2000]
                             (message "not json") start) = documents start
      ∧ inserted new = []
      ∧ acks new = []
      ∧ nacks new = replicate (length [store_up 1000; store_up 2000])
                              (message "not json", false, true).
Proof.
  split; [reflexivity|].
  apply (malformed_always_requeued sample_parse); reflexivity.
Defined.

(** C1, at the failing input.  The body [{ type : { toString : 1 } }]
    is stamped and stored; then the template literal of line 119 throws
    a TypeError, the acknowledgement of line 122 is not reached, and the
    catch block requeues the message although its document is stored. *)
Theorem stored_then_requeued :
  let doc := VObj (<["received_at" := VNum (seconds 5000)]>
                     {[ "type" := VObj {[ "toString" := VNum (Q2Qc 1) ]} ]}) in
  processMessage sample_parse (store_up 5000) (message poison_body) start
  = (Ok tt, {| calls := InsertOne doc :: nack_calls (message poison_body) TypeError;
               documents := [doc] |}).
Proof. vm_compute. reflexivity. Qed.

Lemma document_is_object_plus_received_at_witness :
  sample_parse (content (message "{}")) = Some (VObj ∅)
  ∧ is_object (VObj ∅) = true
  ∧ ∃ doc,
      inserted (calls (processMessage sample_parse (store_up 5000) (message "{}") start).2)
        = inserted (calls start) ++ [doc]
      ∧ (∀ props, VObj ∅ = VObj props →
           doc = VObj (<["received_at" := VNum (seconds (now (store_up 5000)))]> props))
      ∧ (∀ elems props, VObj ∅ = VArr elems props →
           doc = VArr elems (<["received_at" := VNum (seconds (now (store_up 5000)))]> props))
      ∧ get_property doc "received_at" = Ok (Some (VNum (seconds (now (store_up 5000)))))
      ∧ (∀ key, key ≠ "received_at" → get_property doc key = get_property (VObj ∅) key).
Proof.
  split; [reflexivity|]. split; [reflexivity|].
  apply (document_is_object_plus_received_at sample_parse); reflexivity.
Defined.

(** C3 as stated fails on the body [7]: it parses, the assignment to a
    property of a number does nothing, and [insertOne] is handed the
    bare number. *)
Lemma bare_number_is_inserted : ¬ Stated.document_is_content_plus_timestamp sample_parse.
Proof.
  intros H.
  destruct (H (store_up 5000) (message "7") (VNum (Q2Qc 7)) eq_refl)
    as (doc & x & Hdoc & Hx & _).
  vm_compute in Hdoc. injection Hdoc as <-. discriminate Hx.
Qed.

Lemma received_at_is_time_of_each_delivery_witness :
  sample_parse (content (message "{}")) = Some (VObj ∅)
  ∧ is_object (VObj ∅) = true
  ∧ (λ doc, get_property doc "received_at")
      <$> inserted (calls (redeliver sample_parse [store_down 1000; store_up 7000]
                                     (message "{}") start))
    = ((λ doc, get_property doc "received_at") <$> inserted (calls start))
      ++ ((λ env, Ok (Some (VNum (seconds (now env)))))
            <$> [store_down 1000; store_up 7000]).
Proof.
  split; [reflexivity|]. split; [reflexivity|].
  apply (received_at_is_time_of_each_delivery sample_parse _ _ _ (VObj ∅)); reflexivity.
Defined.

(** C4 as stated fails on the body [{}] delivered at 1000 ms with the
    store down and again at 7000 ms with the store up: the first
    document carries 1, the second, which is the one stored, carries 7. *)
Lemma redelivery_restamps : ¬ Stated.timestamp_kept_on_redelivery sample_parse.
Proof.
  intros H.
  specialize (H (store_down 1000) (store_up 7000) (message "{}")
                (stamped (VObj ∅) (seconds 1000)) (stamped (VObj ∅) (seconds 7000))).
  assert (get_property (stamped (VObj ∅) (seconds 7000)) "received_at"
          = get_property (stamped (VObj ∅) (seconds 1000)) "received_at") as Heq.
  { apply H.
    - vm_compute. do 2 apply list_elem_of_further. apply list_elem_of_here.
    - vm_compute. reflexivity. }
  vm_compute in Heq. discriminate Heq.
Qed.

Lemma inserted_object_carries_received_at_witness :
  calls (processMessage sample_parse (store_up 5000) (message "{}") start).2
  = calls start ++ [InsertOne (stamped (VObj ∅) (seconds 5000));
                    Log info (processed_line [Chars "unknown"] [Chars "unknown"]
                                             [Chars "unknown"]);
                    Ack (message "{}")]
  ∧ stamped (VObj ∅) (seconds 5000)
    ∈ inserted [InsertOne (stamped (VObj ∅) (seconds 5000));
                Log info (processed_line [Chars "unknown"] [Chars "unknown"]
                                         [Chars "unknown"]);
                Ack (message "{}")]
  ∧ ∃ v, sample_parse (content (message "{}")) = Some v
         ∧ v ≠ VNull
         ∧ set_property v "received_at" (VNum (seconds (now (store_up 5000))))
           = Ok (stamped (VObj ∅) (seconds 5000))
         ∧ (is_object v = true →
            get_property (stamped (VObj ∅) (seconds 5000)) "received_at"
            = Ok (Some (VNum (seconds (now (store_up 5000)))))).
Proof.
  assert (calls (processMessage sample_parse (store_up 5000) (message "{}") start).2
          = calls start ++ [InsertOne (stamped (VObj ∅) (seconds 5000));
                            Log info (processed_line [Chars "unknown"] [Chars "unknown"]
                                                     [Chars "unknown"]);
                            Ack (message "{}")]) as Hc
    by (vm_compute; reflexivity).
  assert (stamped (VObj ∅) (seconds 5000)
          ∈ inserted [InsertOne (stamped (VObj ∅) (seconds 5000));
                      Log info (processed_line [Chars "unknown"] [Chars "unknown"]
                                               [Chars "unknown"]);
                      Ack (message "{}")]) as Hin
    by (simpl; apply list_elem_of_singleton; reflexivity).
  split; [exact Hc|]. split; [exact Hin|].
  exact (inserted_object_carries_received_at sample_parse _ _ _ _ _ Hc Hin).
Defined.

(** C10 as stated fails on the body [true]: [insertOne] is handed the
    boolean, which has no [received_at]. *)
Lemma bare_boolean_is_inserted : ¬ Stated.every_insert_carries_timestamp sample_parse.
Proof.
  intros H.
  destruct (H (store_up 5000) (message "true") (VBool true)) as [n Hn].
  - vm_compute. apply list_elem_of_here.
  - discriminate Hn.
Qed.

Lemma absent_database_or_table_is_unknown_witness :
  sample_parse (content (message users_body)) = Some users_value
  ∧ set_property users_value "received_at" (VNum (seconds (now (store_up 5000))))
    = Ok (stamped users_value (seconds 5000))
  ∧ (get_property users_value "database" = Ok None
     ∨ get_property users_value "table" = Ok None)
  ∧ accepts (store_up 5000) (stamped users_value (seconds 5000)) = true
  ∧ ∃ ty db tb,
      processMessage sample_parse (store_up 5000) (message users_body) start
      = (Ok tt,
         {| calls := calls start ++ [InsertOne (stamped users_value (seconds 5000));
                                     Log info (processed_line ty db tb);
                                     Ack (message users_body)];
            documents := documents start ++ [stamped users_value (seconds 5000)] |})
      ∧ (get_property users_value "database" = Ok None → db = [Chars "unknown"])
      ∧ (get_property users_value "table" = Ok None → tb = [Chars "unknown"]).
Proof.
  split; [reflexivity|]. split; [reflexivity|]. split; [left; reflexivity|].
  split; [reflexivity|].
  apply (absent_database_or_table_is_unknown sample_parse).
  - reflexivity.
  - reflexivity.
  - left; reflexivity.
  - reflexivity.
  - intros key x Hk Hx. rewrite !elem_of_cons, elem_of_nil in Hk.
    destruct Hk as [->|[->|[->|[]]]]; vm_compute in Hx;
      [discriminate Hx| |]; injection Hx as <-; eexists; reflexivity.
Defined.

End ConsumerFacts.

(** * Properties of the connect loops, of start-up and of shutdown *)
Module ProcessFacts.
Import JS Consumer Process Samples.

Lemma first_success_Some works fuel k j :
  first_success works fuel k = Some j ↔
  (k ≤ j < k + fuel)%nat ∧ works j = true ∧ ∀ i, (k ≤ i < j)%nat → works i = false.
Proof.
  revert k. induction fuel as [|fuel IH]; intros k; cbn.
  - split; [done|]. intros [? _]. lia.
  - destruct (works k) eqn:Hk.
    + split.
      * intros [= <-]. split; [lia|]. split; [done|]. intros i ?. lia.
      * intros (Hr & Hj & Hi). f_equal.
        destruct (decide (k = j)) as [|Hne]; [done|].
        rewrite Hi in Hk by lia. done.
    + rewrite IH. split.
      * intros (Hr & Hj & Hi). split; [lia|]. split; [done|].
        intros i ?. destruct (decide (i = k)) as [->|]; [done|]. apply Hi. lia.
      * intros (Hr & Hj & Hi).
        assert (k ≠ j) by (intros ->; congruence).
        split; [lia|]. split; [done|]. intros i ?. apply Hi. lia.
Qed.

Lemma first_success_None works fuel k :
  first_success works fuel k = None ↔ ∀ i, (k ≤ i < k + fuel)%nat → works i = false.
Proof.
  revert k. induction fuel as [|fuel IH]; intros k; cbn.
  - split; [|done]. intros _ i ?. lia.
  - destruct (works k) eqn:Hk.
    + split; [done|]. intros Hi. rewrite Hi in Hk by lia. done.
    + rewrite IH. split.
      * intros Hi i ?. destruct (decide (i = k)) as [->|]; [done|]. apply Hi. lia.
      * intros Hi i ?. apply Hi. lia.
Qed.

Lemma failures_first_success works fuel k :
  failures works fuel k =
    match first_success works fuel k with
    | Some j => (j - k)%nat
    | None => fuel
    end.
Proof.
  revert k. induction fuel as [|fuel IH]; intros k; cbn; [done|].
  destruct (works k); [lia|]. rewrite IH.
  destruct (first_success works fuel (S k)) as [j|] eqn:Hj; [|done].
  apply first_success_Some in Hj. lia.
Qed.

Section Retry.
Variable body : nat → P nat.
Variable ok : nat → bool.
Variable warning : string.
Variable begun : call → option nat.
Hypothesis body_result :
  ∀ k, (body k).2 = Done k ∧ ok k = true ∨ (∃ e, (body k).2 = Thrown e) ∧ ok k = false.
Hypothesis body_quiet : ∀ k, sleeps (body k).1 = [] ∧ exits (body k).1 = [].
Hypothesis body_begun : ∀ k, omap begun (body k).1 = [k].
Hypothesis begun_log : ∀ l line, begun (log l line) = None.
Hypothesis begun_sleep : ∀ ms, begun (sleep ms) = None.

(** The loop returns the first attempt that works, if it is among those
    observed, and is still running otherwise; it has slept 5000 ms after
    each failure and at no other time, has begun one attempt more than
    it has slept unless the observation stops first, and has not ended
    the process. *)
Lemma retry_spec fuel k :
  (retry body warning fuel k).2 =
    match first_success ok fuel k with Some j => Done j | None => Pending end
  ∧ sleeps (retry body warning fuel k).1 = replicate (failures ok fuel k) 5000
  ∧ exits (retry body warning fuel k).1 = []
  ∧ omap begun (retry body warning fuel k).1 =
      seq k (failures ok fuel k + match first_success ok fuel k with Some _ => 1 | None => 0 end).
Proof.
  revert k. induction fuel as [|fuel IH]; intros k; [done|].
  cbn [retry first_success failures].
  destruct (body_quiet k) as [Hs He]. pose proof (body_begun k) as Hm.
  destruct (body k) as [cs r] eqn:Hb. cbn [fst snd] in *.
  destruct (body_result k) as [[Hr ->]|[[e Hr] ->]]; rewrite Hb in Hr; cbn in Hr; subst r.
  - unfold try_catch_P. cbn [fst snd]. by rewrite Hs, He, Hm.
  - unfold try_catch_P. specialize (IH (S k)).
    destruct (retry body warning fuel (S k)) as [cs' r'] eqn:Hrec. cbn [fst snd] in IH.
    destruct IH as (IHr & IHs & IHe & IHm).
    cbn [mbind P_bind do fst snd app].
    unfold sleeps, exits in *. rewrite !omap_app, Hs, He, Hm.
    cbn in *. by rewrite begun_log, begun_sleep, IHs, IHe, IHm.
Qed.

End Retry.

Section WithConfig.
Variable cfg : Config.

Lemma rabbit_attempt_result fails k :
  (rabbit_attempt cfg fails k).2 =
    match fails with None => Done k | Some _ => Thrown BrokerError end
  ∧ sleeps (rabbit_attempt cfg fails k).1 = []
  ∧ exits (rabbit_attempt cfg fails k).1 = []
  ∧ broker_attempts (rabbit_attempt cfg fails k).1 = [k].
Proof. by destruct fails as [[]|]. Qed.

Lemma mongo_attempt_result fails k :
  (mongo_attempt fails k).2 =
    match fails with None => Done k | Some _ => Thrown StoreError end
  ∧ sleeps (mongo_attempt fails k).1 = []
  ∧ exits (mongo_attempt fails k).1 = []
  ∧ store_attempts (mongo_attempt fails k).1 = [k].
Proof. by destruct fails as [[]|]. Qed.

Lemma connectToRabbitMQ_spec (broker_fails : nat → option broker_op) (fuel k : nat) :
  (connectToRabbitMQ cfg broker_fails fuel k).2
  = match first_success (works broker_fails) fuel k with
    | Some j => Done j
    | None => Pending
    end
  ∧ sleeps (connectToRabbitMQ cfg broker_fails fuel k).1
    = replicate (failures (works broker_fails) fuel k) 5000
  ∧ exits (connectToRabbitMQ cfg broker_fails fuel k).1 = []
  ∧ broker_attempts (connectToRabbitMQ cfg broker_fails fuel k).1
    = seq k (failures (works broker_fails) fuel k
             + match first_success (works broker_fails) fuel k with
               | Some _ => 1 | None => 0 end).
Proof.
  apply (retry_spec _ (works broker_fails)); try done.
  - intros j. destruct (rabbit_attempt_result (broker_fails j) j) as (Hr & _).
    unfold works. destruct (broker_fails j); eauto.
  - intros j. by destruct (rabbit_attempt_result (broker_fails j) j) as (_ & ? & ? & _).
  - intros j. by destruct (rabbit_attempt_result (broker_fails j) j) as (_ & _ & _ & ?).
Qed.

Lemma connectToMongoDB_spec (store_fails : nat → option store_op) (fuel k : nat) :
  (connectToMongoDB store_fails fuel k).2
  = match first_success (works store_fails) fuel k with
    | Some j => Done j
    | None => Pending
    end
  ∧ sleeps (connectToMongoDB store_fails fuel k).1
    = replicate (failures (works store_fails) fuel k) 5000
  ∧ exits (connectToMongoDB store_fails fuel k).1 = []
  ∧ store_attempts (connectToMongoDB store_fails fuel k).1
    = seq k (failures (works store_fails) fuel k
             + match first_success (works store_fails) fuel k with
               | Some _ => 1 | None => 0 end).
Proof.
  apply (retry_spec _ (works store_fails)); try done.
  - intros j. destruct (mongo_attempt_result (store_fails j) j) as (Hr & _).
    unfold works. destruct (store_fails j); eauto.
  - intros j. by destruct (mongo_attempt_result (store_fails j) j) as (_ & ? & ? & _).
  - intros j. by destruct (mongo_attempt_result (store_fails j) j) as (_ & _ & _ & ?).
Qed.

(** C6.  Each connect loop, observed for any number of rounds, has
    either returned the connection of the first attempt that succeeded
    or is still running: it never returns an error.  It has waited 5000
    ms after each failed attempt, whatever operation of the attempt
    failed, has begun the next attempt after each wait, and contains no
    call that ends the process.  As long as no attempt succeeds the loop
    goes on, for as many rounds as are observed. *)
Theorem connect_retries_until_success
    (broker_fails : nat → option broker_op) (store_fails : nat → option store_op)
    (fuel k : nat) :
  let rb := connectToRabbitMQ cfg broker_fails fuel k in
  let rs := connectToMongoDB store_fails fuel k in
  (rb.2 = match first_success (works broker_fails) fuel k with
          | Some j => Done j
          | None => Pending
          end
   ∧ sleeps rb.1 = replicate (failures (works broker_fails) fuel k) 5000
   ∧ exits rb.1 = []
   ∧ broker_attempts rb.1 =
       seq k (failures (works broker_fails) fuel k
              + match first_success (works broker_fails) fuel k with
                | Some _ => 1 | None => 0 end))
  ∧ (rs.2 = match first_success (works store_fails) fuel k with
            | Some j => Done j
            | None => Pending
            end
     ∧ sleeps rs.1 = replicate (failures (works store_fails) fuel k) 5000
     ∧ exits rs.1 = []
     ∧ store_attempts rs.1 =
         seq k (failures (works store_fails) fuel k
                + match first_success (works store_fails) fuel k with
                  | Some _ => 1 | None => 0 end)).
Proof.
  cbn zeta. split; [apply connectToRabbitMQ_spec|apply connectToMongoDB_spec].
Qed.

(** With enough rounds observed, the loop is seen to return. *)
Lemma connectToRabbitMQ_returns (broker_fails : nat → option broker_op) k j fuel :
  (k ≤ j)%nat → broker_fails j = None →
  (∀ i, (k ≤ i < j)%nat → broker_fails i ≠ None) →
  (j - k < fuel)%nat →
  (connectToRabbitMQ cfg broker_fails fuel k).2 = Done j.
Proof.
  intros Hk Hj Hi Hfuel.
  destruct (connectToRabbitMQ_spec broker_fails fuel k) as (-> & _).
  replace (first_success (works broker_fails) fuel k) with (Some j); [done|].
  symmetry. apply first_success_Some. split; [lia|]. unfold works.
  split; [by rewrite Hj|]. intros i Hr. specialize (Hi i Hr). by destruct (broker_fails i).
Qed.

Lemma connectToMongoDB_returns (store_fails : nat → option store_op) k j fuel :
  (k ≤ j)%nat → store_fails j = None →
  (∀ i, (k ≤ i < j)%nat → store_fails i ≠ None) →
  (j - k < fuel)%nat →
  (connectToMongoDB store_fails fuel k).2 = Done j.
Proof.
  intros Hk Hj Hi Hfuel.
  destruct (connectToMongoDB_spec store_fails fuel k) as (-> & _).
  replace (first_success (works store_fails) fuel k) with (Some j); [done|].
  symmetry. apply first_success_Some. split; [lia|]. unfold works.
  split; [by rewrite Hj|]. intros i Hr. specialize (Hi i Hr). by destruct (store_fails i).
Qed.

(** C8.  Once both connections are made: if [prefetch] and [consume] go
    well, the consumer is left running and its SIGINT handler ends the
    process with status 0 when both [close] calls succeed and with
    status 1 when either of them fails.  If one of the two calls fails,
    the process ends with status 1: through the catch block of [main]
    (or, when the clean-up fails too, through the catch of line 200)
    when the call throws, and through Node's uncaught exception when the
    promise it returned is rejected, which [main] does not await. *)
Theorem exit_status (o : Outside) (fuel a b : nat) :
  first_success (works (store_fails o)) fuel 0 = Some a →
  first_success (works (broker_fails o)) fuel 0 = Some b →
  (prefetch_goes o = goes_well → consume_goes o = goes_well →
     (node_consumer cfg o fuel).2 = Done (a, b)
     ∧ exits (node_consumer cfg o fuel).1 = []
     ∧ exit_code (shutdown o (Some b) (Some a))
       = Some (if connection_close_fails o || client_close_fails o then 1 else 0))
  ∧ (prefetch_goes o ≠ goes_well ∨ consume_goes o ≠ goes_well →
     exit_code (node_consumer cfg o fuel) = Some 1).
Proof.
  destruct o as [sf bf pg cg rabbit_close mongo_close].
  cbn [store_fails broker_fails prefetch_goes consume_goes
       connection_close_fails client_close_fails].
  intros Ha Hb.
  destruct (connectToRabbitMQ_spec bf fuel 0%nat) as (Hrb & _ & Heb & _).
  destruct (connectToMongoDB_spec sf fuel 0%nat) as (Hrs & _ & Hes & _).
  rewrite Ha in Hrs. rewrite Hb in Hrb.
  unfold node_consumer, unhandled, start_application, main, exit_code.
  cbn [store_fails broker_fails prefetch_goes consume_goes].
  destruct (connectToMongoDB sf fuel 0) as [cs1 r1].
  destruct (connectToRabbitMQ cfg bf fuel 0) as [cs2 r2].
  cbn [fst snd] in *. subst r1 r2.
  split.
  - intros -> ->. split; [done|]. split.
    + cbn.
      unfold exits in *. rewrite !omap_app, Hes, Heb. done.
    + by destruct rabbit_close, mongo_close.
  - intros Hm. destruct pg, cg; try (by destruct Hm);
      by destruct rabbit_close, mongo_close.
Qed.

End WithConfig.

(** Three runs: everything works and a later SIGINT ends the process
    with status 0; the store client refuses to close at shutdown, status
    1; the broker refuses the subscription, status 1. *)
Lemma exit_status_witness :
  (first_success (works (store_fails calm)) 1 0 = Some 0%nat
   ∧ first_success (works (broker_fails calm)) 1 0 = Some 0%nat
   ∧ (node_consumer default_config calm 1).2 = Done (0%nat, 0%nat)
   ∧ exit_code (shutdown calm (Some 0%nat) (Some 0%nat)) = Some 0)
  ∧ (first_success (works (store_fails close_refused)) 1 0 = Some 0%nat
     ∧ first_success (works (broker_fails close_refused)) 1 0 = Some 0%nat
     ∧ (node_consumer default_config close_refused 1).2 = Done (0%nat, 0%nat)
     ∧ exit_code (shutdown close_refused (Some 0%nat) (Some 0%nat)) = Some 1)
  ∧ (first_success (works (store_fails consume_rejected)) 1 0 = Some 0%nat
     ∧ first_success (works (broker_fails consume_rejected)) 1 0 = Some 0%nat
     ∧ consume_goes consume_rejected ≠ goes_well
     ∧ exit_code (node_consumer default_config consume_rejected 1) = Some 1)
  ∧ (first_success (works (store_fails prefetch_throws)) 1 0 = Some 0%nat
     ∧ first_success (works (broker_fails prefetch_throws)) 1 0 = Some 0%nat
     ∧ prefetch_goes prefetch_throws ≠ goes_well
     ∧ exit_code (node_consumer default_config prefetch_throws 1) = Some 1).
Proof.
  assert (consume_goes consume_rejected ≠ goes_well) as Hc by done.
  assert (prefetch_goes prefetch_throws ≠ goes_well) as Hp by done.
  split; [|split; [|split]].
  - split; [reflexivity|]. split; [reflexivity|].
    destruct (exit_status default_config calm 1 0 0 eq_refl eq_refl) as [Hwell _].
    destruct (Hwell eq_refl eq_refl) as (Hdone & _ & Hexit). split; [exact Hdone|exact Hexit].
  - split; [reflexivity|]. split; [reflexivity|].
    destruct (exit_status default_config close_refused 1 0 0 eq_refl eq_refl) as [Hwell _].
    destruct (Hwell eq_refl eq_refl) as (Hdone & _ & Hexit). split; [exact Hdone|exact Hexit].
  - split; [reflexivity|]. split; [reflexivity|]. split; [exact Hc|].
    destruct (exit_status default_config consume_rejected 1 0 0 eq_refl eq_refl) as [_ Hfails].
    exact (Hfails (or_intror Hc)).
  - split; [reflexivity|]. split; [reflexivity|]. split; [exact Hp|].
    destruct (exit_status default_config prefetch_throws 1 0 0 eq_refl eq_refl) as [_ Hfails].
    exact (Hfails (or_introl Hp)).
Defined.

End ProcessFacts.

(** * Properties of the consumer on the broker *)
Module BrokerFacts.
Import JS Consumer Process Broker Samples.

Lemma length_remove_first m l : (length (remove_first m l) ≤ length l)%nat.
Proof.
  induction l as [|x l IH]; cbn; [lia|]. destruct (decide (x = m)); cbn; lia.
Qed.

Lemma within_limit_initial : within_limit ∅ initial.
Proof. intros k ch Hk. cbn in Hk. by rewrite lookup_empty in Hk. Qed.

Lemma lose_within_limit L k s : within_limit L s → within_limit L (lose k s).
Proof.
  intros Hs k' ch' Hk'. unfold lose in Hk'.
  destruct (channels s !! k) as [ch|] eqn:Hk; [|by apply Hs].
  cbn in Hk'. destruct (decide (k = k')) as [<-|Hne].
  - rewrite lookup_insert_eq in Hk'. injection Hk' as <-. cbn.
    destruct (Hs k ch Hk) as (_ & Hq & _). split; [lia|]. by split.
  - rewrite lookup_insert_ne in Hk' by done. by apply Hs.
Qed.

(** A broker event keeps the bound: a delivery needs room under the limit. *)
Lemma happen_within_limit L e s s' :
  within_limit L s → happen e s = Some s' → within_limit L s'.
Proof.
  intros Hs He. destruct e as [m|k|k m|k m|k]; cbn in He.
  - injection He as <-. exact Hs.
  - destruct (channels s !! k) as [ch|] eqn:Hk; [|done].
    destruct (ready s) as [|m rest]; [done|].
    destruct (is_open ch && consuming ch && has_room ch) eqn:Hc; [|done].
    injection He as <-. apply andb_prop in Hc as [Hc Hroom].
    apply andb_prop in Hc as [_ Hcons].
    destruct (Hs k ch Hk) as (Hlen & Hq & Hno).
    assert (k ∈ L) as HkL.
    { destruct (decide (k ∈ L)); [done|]. destruct Hno; congruence. }
    assert (unacked ch = []) as Hnil.
    { unfold has_room in Hroom. rewrite (Hq HkL) in Hroom.
      apply bool_decide_eq_true_1 in Hroom. destruct (unacked ch); [done|cbn in *; lia]. }
    intros k' ch' Hk'. cbn in Hk'. destruct (decide (k = k')) as [<-|Hne].
    + rewrite lookup_insert_eq in Hk'. injection Hk' as <-. cbn. rewrite Hnil.
      split; [cbn; lia|]. by split.
    + rewrite lookup_insert_ne in Hk' by done. by apply Hs.
  - unfold resolve in He. destruct (channels s !! k) as [ch|] eqn:Hk; [|done].
    destruct (bool_decide (m ∈ unacked ch)) eqn:Hin; [|done]. injection He as <-.
    apply bool_decide_eq_true_1 in Hin.
    destruct (Hs k ch Hk) as (Hlen & Hq & Hno).
    intros k' ch' Hk'. cbn in Hk'. destruct (decide (k = k')) as [<-|Hne].
    + rewrite lookup_insert_eq in Hk'. injection Hk' as <-. cbn.
      pose proof (length_remove_first m (unacked ch)).
      split; [lia|]. split; [done|]. intros HkL. destruct (Hno HkL) as [_ Hnil].
      rewrite Hnil in Hin. by apply elem_of_nil in Hin.
    + rewrite lookup_insert_ne in Hk' by done. by apply Hs.
  - unfold resolve in He. destruct (channels s !! k) as [ch|] eqn:Hk; [|done].
    destruct (bool_decide (m ∈ unacked ch)) eqn:Hin; [|done]. injection He as <-.
    apply bool_decide_eq_true_1 in Hin.
    destruct (Hs k ch Hk) as (Hlen & Hq & Hno).
    intros k' ch' Hk'. cbn in Hk'. destruct (decide (k = k')) as [<-|Hne].
    + rewrite lookup_insert_eq in Hk'. injection Hk' as <-. cbn.
      pose proof (length_remove_first m (unacked ch)).
      split; [lia|]. split; [done|]. intros HkL. destruct (Hno HkL) as [_ Hnil].
      rewrite Hnil in Hin. by apply elem_of_nil in Hin.
    + rewrite lookup_insert_ne in Hk' by done. by apply Hs.
  - injection He as <-. by apply lose_within_limit.
Qed.

(** A call of a disciplined sequence keeps the bound, for the set of
    limited channels the rest of the sequence is checked against. *)
Lemma client_within_limit L c rest s :
  within_limit L s → disciplined L (c :: rest) = true →
  ∃ L', within_limit L' (client c s) ∧ disciplined L' rest = true.
Proof.
  intros Hs Hd. destruct c; cbn in Hd; try (exists L; split; [exact Hs|exact Hd]).
  - (* createChannel *)
    exists (L ∖ {[k]}). split; [|done].
    intros k' ch' Hk'. cbn in Hk'. destruct (decide (k = k')) as [<-|Hne].
    + rewrite lookup_insert_eq in Hk'. injection Hk' as <-. cbn.
      split; [lia|]. split; [|done].
      rewrite elem_of_difference, elem_of_singleton. by intros [_ ?].
    + rewrite lookup_insert_ne in Hk' by done.
      destruct (Hs k' ch' Hk') as (Hlen & Hq & Hno).
      split; [done|]. split.
      * rewrite elem_of_difference. intros [? _]. by apply Hq.
      * intros Hn. apply Hno. intros HL. apply Hn.
        rewrite elem_of_difference, elem_of_singleton. by split.
  - (* prefetch *)
    apply andb_prop in Hd as [Hn Hd]. apply bool_decide_eq_true_1 in Hn. subst count.
    exists ({[k]} ∪ L). split; [|done].
    intros k' ch' Hk'. cbn in Hk'. destruct (decide (k = k')) as [<-|Hne].
    + rewrite lookup_alter_eq in Hk'.
      destruct (channels s !! k) as [ch|] eqn:Hk; [|done].
      injection Hk' as <-. cbn. destruct (Hs k ch Hk) as (Hlen & _ & _).
      split; [done|]. split; [done|].
      intros Hn. destruct Hn. apply elem_of_union_l. by apply elem_of_singleton.
    + rewrite lookup_alter_ne in Hk' by done.
      destruct (Hs k' ch' Hk') as (Hlen & Hq & Hno).
      split; [done|]. split.
      * rewrite elem_of_union, elem_of_singleton. intros [?|?]; [done|by apply Hq].
      * intros Hn. apply Hno. intros HL. apply Hn. by apply elem_of_union_r.
  - (* consume *)
    apply andb_prop in Hd as [Hin Hd]. apply bool_decide_eq_true_1 in Hin.
    exists L. split; [|done].
    intros k' ch' Hk'. cbn in Hk'. destruct (decide (k = k')) as [<-|Hne].
    + rewrite lookup_alter_eq in Hk'.
      destruct (channels s !! k) as [ch|] eqn:Hk; [|done].
      injection Hk' as <-. cbn. destruct (Hs k ch Hk) as (Hlen & Hq & _).
      split; [done|]. split; [done|]. intros Hn. done.
    + rewrite lookup_alter_ne in Hk' by done. by apply Hs.
  - (* connection.close *)
    exists L. split; [|done]. by apply lose_within_limit.
Qed.

Lemma run_within_limit steps L s s' :
  within_limit L s → disciplined L (client_calls steps) = true →
  run steps s = Some s' → ∃ L', within_limit L' s'.
Proof.
  revert L s. induction steps as [|[c|e] steps IH]; intros L s Hs Hd Hrun.
  - injection Hrun as <-. eauto.
  - cbn in Hd, Hrun. destruct (client_within_limit L c _ s Hs Hd) as (L' & Hs' & Hd').
    by eapply IH.
  - cbn in Hd, Hrun. destruct (happen e s) as [s1|] eqn:He; [|done].
    eapply IH; [|done..]. by eapply happen_within_limit.
Qed.

(** With the limit 1 in force, a delivery finds the channel empty. *)
Lemma deliver_needs_empty L s k ch s' :
  within_limit L s → channels s !! k = Some ch →
  happen (deliver k) s = Some s' → unacked ch = [].
Proof.
  intros Hs Hk He. cbn in He. rewrite Hk in He.
  destruct (ready s) as [|m rest]; [done|].
  destruct (is_open ch && consuming ch && has_room ch) eqn:Hc; [|done].
  apply andb_prop in Hc as [Hc Hroom]. apply andb_prop in Hc as [_ Hcons].
  destruct (Hs k ch Hk) as (Hlen & Hq & Hno).
  destruct (decide (k ∈ L)) as [HkL|HkL]; [|by destruct (Hno HkL)].
  unfold has_room in Hroom. rewrite (Hq HkL) in Hroom.
  apply bool_decide_eq_true_1 in Hroom. destruct (unacked ch); [done|cbn in *; lia].
Qed.

Lemma disciplined_neutral L cs : forallb neutral cs = true → disciplined L cs = true.
Proof.
  revert L. induction cs as [|c cs IH]; intros L Hn; [done|].
  cbn in Hn. apply andb_prop in Hn as [Hc Hn]. destruct c; cbn; try done; by apply IH.
Qed.

Lemma disciplined_app_neutral L pre rest :
  forallb neutral pre = true → (∀ L', disciplined L' rest = true) →
  disciplined L (pre ++ rest) = true.
Proof.
  revert L. induction pre as [|c pre IH]; intros L Hn Hrest; [by apply Hrest|].
  cbn in Hn. apply andb_prop in Hn as [Hc Hn]. destruct c; cbn; try done; by apply IH.
Qed.

(** What is disciplined stays so when cut short. *)
Lemma disciplined_prefix L cs cs' :
  cs `prefix_of` cs' → disciplined L cs' = true → disciplined L cs = true.
Proof.
  intros [rest ->]. revert L. induction cs as [|c cs IH]; intros L Hd; [done|].
  destruct c; cbn in *; try (by apply IH).
  - apply andb_prop in Hd as [-> Hd]. by apply IH.
  - apply andb_prop in Hd as [-> Hd]. by apply IH.
Qed.

Lemma retry_neutral body warning fuel k :
  (∀ j, forallb neutral (body j).1 = true) →
  forallb neutral (retry body warning fuel k).1 = true.
Proof.
  intros Hb. revert k. induction fuel as [|fuel IH]; intros k; [done|].
  cbn [retry]. specialize (Hb k). specialize (IH (S k)).
  destruct (body k) as [cs [a|e| |c]]; cbn [fst snd] in *; try done.
  unfold try_catch_P. destruct (retry body warning fuel (S k)) as [cs' r'].
  cbn [mbind P_bind do fst snd app] in *. rewrite forallb_app, Hb. cbn. exact IH.
Qed.

Section WithConfig.
Variable cfg : Config.

Lemma connectToRabbitMQ_neutral fails fuel k :
  forallb neutral (connectToRabbitMQ cfg fails fuel k).1 = true.
Proof. apply retry_neutral. intros j. by destruct (fails j) as [[]|]. Qed.

Lemma connectToMongoDB_neutral fails fuel k :
  forallb neutral (connectToMongoDB fails fuel k).1 = true.
Proof. apply retry_neutral. intros j. by destruct (fails j) as [[]|]. Qed.

(** The calls of [main], followed by whatever reconnections come later,
    are disciplined: the one [consume] comes after [prefetch(1)] on the
    same channel. *)
Lemma main_disciplined o fuel later L :
  forallb neutral later = true →
  disciplined L ((main cfg o fuel).1 ++ later) = true.
Proof.
  intros Hlater. destruct o as [sf bf pg cg rabbit_close mongo_close].
  unfold main. cbn [store_fails broker_fails prefetch_goes consume_goes].
  pose proof (connectToMongoDB_neutral sf fuel 0) as Hn1.
  pose proof (connectToRabbitMQ_neutral bf fuel 0) as Hn2.
  destruct (ProcessFacts.connectToRabbitMQ_spec cfg bf fuel 0%nat) as (Hrb & _).
  destruct (ProcessFacts.connectToMongoDB_spec sf fuel 0%nat) as (Hrs & _).
  destruct (connectToMongoDB sf fuel 0) as [cs1 r1].
  destruct (connectToRabbitMQ cfg bf fuel 0) as [cs2 r2].
  cbn [fst snd] in *.
  destruct (first_success (works sf) fuel 0) as [a|]; subst r1;
    [|cbn; apply disciplined_app_neutral; [done|intros; by apply disciplined_neutral]].
  destruct (first_success (works bf) fuel 0) as [b|]; subst r2.
  - destruct pg, cg, rabbit_close, mongo_close; cbn;
      rewrite <- ?app_assoc;
      (apply disciplined_app_neutral; [done|intros L1]);
      (apply disciplined_app_neutral; [done|intros L2]);
      cbn [app disciplined];
      rewrite ?(bool_decide_eq_true_2 (1%nat = 1%nat)) by done;
      rewrite ?(bool_decide_eq_true_2 (b ∈ {[b]} ∪ _))
        by (apply elem_of_union_l; by apply elem_of_singleton);
      cbn [andb]; by apply disciplined_neutral.
  - cbn. rewrite <- ?app_assoc.
    apply disciplined_app_neutral; [done|intros L1].
    apply disciplined_app_neutral; [done|intros L2]. by apply disciplined_neutral.
Qed.

(** C7.  [main] sets the prefetch limit 1 on its channel and subscribes
    after that, on that channel.  In every history in which the consumer
    makes the calls of [main] in their order (later reconnections
    included) and the broker delivers, requeues and drops as it may, no
    channel ever holds more than one unresolved message, and a message
    is delivered only when the one before it has been acknowledged,
    negatively acknowledged or given back by a lost connection. *)
Theorem prefetch_one_before_consume o fuel later steps s :
  forallb neutral later = true →
  client_calls steps `prefix_of` (main cfg o fuel).1 ++ later →
  run steps initial = Some s →
  (∀ a b, (main cfg o fuel).2 = Done (a, b) →
     ∃ pre, forallb neutral pre = true
            ∧ (main cfg o fuel).1
              = pre ++ [prefetch b 1;
                        log info [Lit [Chars "Starting to consume messages..."]];
                        consume b (RABBITMQ_QUEUE cfg); on_SIGINT])
  ∧ ∀ k ch, channels s !! k = Some ch →
      (length (unacked ch) ≤ 1)%nat
      ∧ ∀ s', happen (deliver k) s = Some s' → unacked ch = [].
Proof.
  intros Hlater Hpre Hrun. split.
  - clear. intros a b. destruct o as [sf bf pg cg rabbit_close mongo_close].
    unfold main. cbn [store_fails broker_fails prefetch_goes consume_goes].
    pose proof (connectToMongoDB_neutral sf fuel 0) as Hn1.
    pose proof (connectToRabbitMQ_neutral bf fuel 0) as Hn2.
    destruct (connectToMongoDB sf fuel 0) as [cs1 r1].
    destruct (connectToRabbitMQ cfg bf fuel 0) as [cs2 r2].
    cbn [fst snd] in *.
    destruct pg, cg, rabbit_close, mongo_close, r1 as [a1|e1| |c1];
      try (cbn; discriminate);
      destruct r2 as [b1|e2| |c2]; try (cbn; discriminate);
      cbn; try discriminate;
      intros [= <- <-]; exists (cs1 ++ cs2);
      (split; [by rewrite forallb_app, Hn1, Hn2|by rewrite <- app_assoc]).
  - assert (disciplined ∅ (client_calls steps) = true) as Hd.
    { eapply disciplined_prefix; [exact Hpre|]. by apply main_disciplined. }
    destruct (run_within_limit steps ∅ initial s within_limit_initial Hd Hrun) as [L HL].
    intros k ch Hk. split; [by apply (HL k ch Hk)|].
    intros s' He. by eapply deliver_needs_empty.
Qed.

End WithConfig.

Lemma prefetch_one_before_consume_witness :
  forallb neutral [] = true
  ∧ client_calls two_messages `prefix_of` (main default_config calm 1).1 ++ []
  ∧ ∃ s, run two_messages initial = Some s
    ∧ (∀ a b, (main default_config calm 1).2 = Done (a, b) →
         ∃ pre, forallb neutral pre = true
                ∧ (main default_config calm 1).1
                  = pre ++ [prefetch b 1;
                            log info [Lit [Chars "Starting to consume messages..."]];
                            consume b (RABBITMQ_QUEUE default_config); on_SIGINT])
    ∧ ∀ k ch, channels s !! k = Some ch →
        (length (unacked ch) ≤ 1)%nat
        ∧ ∀ s', happen (deliver k) s = Some s' → unacked ch = [].
Proof.
  assert (client_calls two_messages `prefix_of` (main default_config calm 1).1 ++ []) as Hp
    by (exists []; vm_compute; reflexivity).
  split; [reflexivity|]. split; [exact Hp|].
  eexists. split; [vm_compute; reflexivity|].
  apply (prefetch_one_before_consume default_config calm 1 [] two_messages _ eq_refl Hp).
  vm_compute. reflexivity.
Defined.

(** Both handlers set the reconnection timer, whatever the event. *)
Lemma reconnect_timer_always_set ev :
  setTimeout_connectToRabbitMQ 5000 ∈ on_connection_event ev.
Proof. destruct ev; cbn; rewrite !elem_of_cons; auto. Qed.

(** Where no channel has a consumer and the consumer makes no
    [consume] call, nothing is delivered; what is in the queue stays. *)
Lemma no_consumer_no_delivery steps s s' :
  (∀ k ch, channels s !! k = Some ch → consuming ch = false) →
  forallb neutral (client_calls steps) = true →
  run steps s = Some s' →
  deliveries steps = []
  ∧ (∀ k ch, channels s' !! k = Some ch → consuming ch = false)
  ∧ (∀ m, m ∈ ready s → m ∈ ready s').
Proof.
  assert (∀ k s, (∀ k ch, channels s !! k = Some ch → consuming ch = false) →
            (∀ k' ch, channels (lose k s) !! k' = Some ch → consuming ch = false)
            ∧ (∀ m, m ∈ ready s → m ∈ ready (lose k s))) as Hlose.
  { intros k s0 Hs0. unfold lose. destruct (channels s0 !! k) as [ch|] eqn:Hk; [|done].
    cbn. split.
    - intros k' ch'. destruct (decide (k = k')) as [<-|Hne].
      + rewrite lookup_insert_eq. by intros [= <-].
      + rewrite lookup_insert_ne by done. apply Hs0.
    - intros m Hm. apply elem_of_app. by right. }
  revert s. induction steps as [|[c|e] steps IH]; intros s Hs Hn Hrun.
  - injection Hrun as <-. done.
  - cbn in Hn, Hrun. apply andb_prop in Hn as [Hc Hn].
    assert ((∀ k ch, channels (client c s) !! k = Some ch → consuming ch = false)
            ∧ (∀ m, m ∈ ready s → m ∈ ready (client c s))) as [Hs' Hr'].
    { destruct c; try done; cbn.
      - split; [|done]. intros k' ch'. destruct (decide (k = k')) as [<-|Hne].
        + rewrite lookup_insert_eq. by intros [= <-].
        + rewrite lookup_insert_ne by done. apply Hs.
      - by apply Hlose. }
    destruct (IH _ Hs' Hn Hrun) as (Hd & Hc' & Hr). cbn. split; [done|]. split; [done|].
    intros m Hm. by apply Hr, Hr'.
  - cbn in Hn, Hrun. destruct (happen e s) as [s1|] eqn:He; [|done].
    assert (deliveries [Event e] = []
            ∧ (∀ k ch, channels s1 !! k = Some ch → consuming ch = false)
            ∧ (∀ m, m ∈ ready s → m ∈ ready s1)) as (Hd1 & Hs1 & Hr1).
    { destruct e as [m|k|k m|k m|k]; cbn in He.
      - injection He as <-. cbn. split; [done|]. split; [done|].
        intros m' Hm'. apply elem_of_app. by left.
      - destruct (channels s !! k) as [ch|] eqn:Hk; [|done].
        destruct (ready s); [done|]. rewrite (Hs k ch Hk) in He.
        by rewrite andb_false_r in He.
      - unfold resolve in He. destruct (channels s !! k) as [ch|] eqn:Hk; [|done].
        destruct (bool_decide (m ∈ unacked ch)); [|done]. injection He as <-. cbn.
        split; [done|]. split; [|done]. intros k' ch'.
        destruct (decide (k = k')) as [<-|Hne].
        + rewrite lookup_insert_eq. intros [= <-]. cbn. by apply (Hs k ch).
        + rewrite lookup_insert_ne by done. apply Hs.
      - unfold resolve in He. destruct (channels s !! k) as [ch|] eqn:Hk; [|done].
        destruct (bool_decide (m ∈ unacked ch)); [|done]. injection He as <-. cbn.
        split; [done|]. split.
        + intros k' ch'. destruct (decide (k = k')) as [<-|Hne].
          * rewrite lookup_insert_eq. intros [= <-]. cbn. by apply (Hs k ch).
          * rewrite lookup_insert_ne by done. apply Hs.
        + intros m' Hm'. apply elem_of_cons. by right.
      - injection He as <-. split; [done|]. by apply Hlose. }
    destruct (IH _ Hs1 Hn Hrun) as (Hd & Hc' & Hr).
    split; [|split; [done|]].
    + change (deliveries (Event e :: steps)) with (deliveries ([Event e] ++ steps)).
      unfold deliveries in *. by rewrite omap_app, Hd1, Hd.
    + intros m Hm. by apply Hr, Hr1.
Qed.

Lemma run_app l steps s :
  run (l ++ steps) s = match run l s with Some s1 => run steps s1 | None => None end.
Proof.
  revert s. induction l as [|[c|e] l IH]; intros s; cbn; [done|by apply IH|].
  destruct (happen e s); [by apply IH|done].
Qed.

Lemma connection_lost_run :
  run connection_lost_in_flight initial = Some after_reconnection.
Proof. vm_compute. reflexivity. Qed.

Lemma after_reconnection_channels k ch :
  channels after_reconnection !! k = Some ch → consuming ch = false.
Proof.
  cbn. destruct (decide (k = 1%nat)) as [->|H1];
    [rewrite lookup_insert_eq; by intros [= <-]|].
  rewrite lookup_insert_ne by done.
  destruct (decide (k = 0%nat)) as [->|H0];
    [rewrite lookup_singleton_eq; by intros [= <-]|].
  by rewrite lookup_singleton_ne.
Qed.

(** C5, at the failing input.  The connection is lost with a message in
    flight; the timer does run [connectToRabbitMQ], and a new connection
    and channel are made.  But the pair it returns goes nowhere: no
    prefetch limit is set and no consumer is subscribed on the new
    channel.  The message is back in the queue and the broker has no
    channel of this process it may deliver it to. *)
Theorem lost_connection_not_resubscribed :
  run connection_lost_in_flight initial = Some after_reconnection
  ∧ ready after_reconnection = [message "{}"]
  ∧ ∀ k, happen (deliver k) after_reconnection = None.
Proof.
  split; [exact connection_lost_run|]. split; [reflexivity|].
  intros k. cbn [happen].
  destruct (channels after_reconnection !! k) as [ch|] eqn:Hk; [|done].
  rewrite (after_reconnection_channels k ch Hk). cbn.
  by rewrite andb_false_r.
Qed.

(** And it stays so: whatever the broker does and however often the
    consumer reconnects afterwards, nothing is delivered to it and the
    message remains in the queue. *)
Lemma lost_connection_never_served steps s' :
  forallb neutral (client_calls steps) = true →
  run (connection_lost_in_flight ++ steps) initial = Some s' →
  deliveries steps = [] ∧ message "{}" ∈ ready s'.
Proof.
  intros Hn Hrun. rewrite run_app, connection_lost_run in Hrun.
  destruct (no_consumer_no_delivery steps after_reconnection s'
              after_reconnection_channels Hn Hrun) as (Hd & _ & Hr).
  split; [done|]. apply Hr. cbn. by apply list_elem_of_singleton.
Qed.

End BrokerFacts.

(** * Further properties of [processMessage] *)
Module DeliveryFacts.
Import JS Consumer Samples.

Section WithParser.
Variable JSON_parse : string → option value.

(** The calls and the documents one run adds, by cases. *)
Lemma processMessage_adds env m w :
  ∃ new added,
    (processMessage JSON_parse env m w).2
    = {| calls := calls w ++ new; documents := documents w ++ added |}
    ∧ ((∃ doc line, new = [InsertOne doc; Log info line; Ack m] ∧ added = [doc]
                    ∧ accepts env doc = true ∧ log_line doc = Ok line
                    ∧ ∃ v, JSON_parse (content m) = Some v
                           ∧ set_property v "received_at" (VNum (seconds (now env))) = Ok doc)
       ∨ (∃ doc e, new = InsertOne doc :: nack_calls m e ∧ added = [doc]
                   ∧ accepts env doc = true ∧ log_line doc = Throw e)
       ∨ (∃ doc, new = InsertOne doc :: nack_calls m StoreError ∧ added = []
                 ∧ accepts env doc = false)
       ∨ (∃ e, new = nack_calls m e ∧ added = []
               ∧ (JSON_parse (content m) = None ∨ JSON_parse (content m) = Some VNull))).
Proof.
  destruct (JSON_parse (content m)) as [v|] eqn:Hp.
  - rewrite (ConsumerFacts.processMessage_parsed _ _ _ _ _ Hp). cbn [snd].
    destruct (set_property v _ _) as [doc|e] eqn:Hs.
    + destruct (accepts env doc) eqn:Hacc; [destruct (log_line doc) as [line|e] eqn:Hl|].
      * eexists _, _. split; [reflexivity|]. left.
        exists doc, line. repeat split; try done. by exists v.
      * eexists _, _. split; [reflexivity|]. right; left. by exists doc, e.
      * eexists _, []. split; [rewrite (app_nil_r (documents w)); reflexivity|]. right; right; left. by exists doc.
    + eexists _, []. split; [rewrite (app_nil_r (documents w)); reflexivity|]. right; right; right.
      exists e. split; [done|]. split; [done|]. right. by destruct v.
  - rewrite (ConsumerFacts.processMessage_malformed _ _ _ _ Hp). cbn [snd].
    eexists _, []. split; [rewrite (app_nil_r (documents w)); reflexivity|]. right; right; right. eauto.
Qed.

(** One run under faults, by cases. *)
Lemma processMessage_under_parsed f env m w v :
  JSON_parse (content m) = Some v →
  processMessage_under JSON_parse f env m w =
    match set_property v "received_at" (VNum (seconds (now env))) with
    | Throw e =>
        (if channel_closed f then Throw BrokerError else Ok tt,
         {| calls := calls w ++ nack_calls m e; documents := documents w |})
    | Ok doc =>
        if accepts env doc then
          match log_line doc with
          | Ok line =>
              if channel_closed f then
                (Throw BrokerError,
                 {| calls := calls w ++ [InsertOne doc; Log info line; Ack m]
                                     ++ nack_calls m BrokerError;
                    documents := documents w ++ [doc] |})
              else
                (Ok tt,
                 {| calls := calls w ++ [InsertOne doc; Log info line; Ack m];
                    documents := documents w ++ [doc] |})
          | Throw e =>
              (if channel_closed f then Throw BrokerError else Ok tt,
               {| calls := calls w ++ InsertOne doc :: nack_calls m e;
                  documents := documents w ++ [doc] |})
          end
        else
          (if channel_closed f then Throw BrokerError else Ok tt,
           {| calls := calls w ++ InsertOne doc :: nack_calls m StoreError;
              documents := documents w ++ if applied_unreported f doc then [doc] else [] |})
    end.
Proof.
  intros Hp. ConsumerFacts.unfold_run. rewrite Hp. cbn.
  destruct (set_property v _ _) as [doc|e]; cbn.
  - destruct (accepts env doc); cbn.
    + destruct (log_line doc); cbn; destruct (channel_closed f); cbn;
        by rewrite <- !app_assoc.
    + destruct (applied_unreported f doc), (channel_closed f); cbn;
        by rewrite <- !app_assoc, ?app_nil_r.
  - destruct (channel_closed f); by rewrite <- !app_assoc.
Qed.

Lemma processMessage_under_malformed f env m w :
  JSON_parse (content m) = None →
  processMessage_under JSON_parse f env m w =
    (if channel_closed f then Throw BrokerError else Ok tt,
     {| calls := calls w ++ nack_calls m SyntaxError; documents := documents w |}).
Proof.
  intros Hp. ConsumerFacts.unfold_run. rewrite Hp. cbn.
  destruct (channel_closed f); by rewrite <- !app_assoc.
Qed.


(** X2.  The message is acknowledged exactly when the body parsed, the
    store accepted the stamped document and the log line could be
    built. *)
Theorem acknowledged_iff_stored_and_logged env m w :
  ∃ new, calls (processMessage JSON_parse env m w).2 = calls w ++ new
         ∧ (acks new = [m] ↔
            ∃ v doc line,
              JSON_parse (content m) = Some v
              ∧ set_property v "received_at" (VNum (seconds (now env))) = Ok doc
              ∧ accepts env doc = true
              ∧ log_line doc = Ok line).
Proof.
  destruct (JSON_parse (content m)) as [v|] eqn:Hp.
  - rewrite (ConsumerFacts.processMessage_parsed _ _ _ _ _ Hp). cbn [snd].
    destruct (set_property v _ _) as [doc|e] eqn:Hs.
    + destruct (accepts env doc) eqn:Hacc; [destruct (log_line doc) as [line|e] eqn:Hl|];
        (eexists; split; [reflexivity|]); split; try done.
      * intros _. exists v, doc, line. by rewrite Hs.
      * intros (v' & doc' & line' & [= <-] & Hs' & Ha' & Hl').
        rewrite Hs in Hs'. injection Hs' as <-. congruence.
      * intros (v' & doc' & line' & [= <-] & Hs' & Ha' & Hl').
        rewrite Hs in Hs'. injection Hs' as <-. congruence.
    + eexists; split; [reflexivity|]. split; [done|].
      intros (v' & doc' & line' & [= <-] & Hs' & _). congruence.
  - rewrite (ConsumerFacts.processMessage_malformed _ _ _ _ Hp). cbn [snd].
    eexists; split; [reflexivity|]. split; [done|].
    intros (v' & doc' & line' & [=] & _).
Qed.


Lemma log_line_stamped v t :
  is_object v = true → log_line (stamped v t) = log_line v.
Proof.
  intros Hv. unfold log_line, field_or_unknown.
  assert (∀ key, key ≠ "received_at" →
            get_property (stamped v t) key = get_property v key) as Hg.
  { intros key Hk. eapply ConsumerFacts.get_set_ne; [|done].
    by apply (ConsumerFacts.set_property_object v "received_at" (VNum t)). }
  by rewrite !Hg.
Qed.

(** X4.  A store outage loses nothing, and it duplicates exactly the
    writes the store applied without reporting them.  For a body that
    parses to an object whose log line can be built, delivered on an
    open channel: while the promise of [insertOne] is rejected the
    message is requeued on each delivery; on the first delivery on which
    the store accepts, the document is stored, stamped with the time of
    that delivery, and the message is acknowledged once.  The collection
    then holds that document and, before it, one copy for each earlier
    delivery whose write was applied although it was reported as
    failed, each stamped with the time of its own delivery. *)
Theorem outage_stores_one_copy_per_applied_write
    (outage : list (Faults * Env)) (recovered : Faults * Env) m w v line :
  JSON_parse (content m) = Some v → is_object v = true →
  log_line v = Ok line →
  Forall (λ d, channel_closed d.1 = false ∧ ∀ doc, accepts d.2 doc = false) outage →
  channel_closed recovered.1 = false →
  accepts recovered.2 (stamped v (seconds (now recovered.2))) = true →
  ∃ new,
    calls (redeliver_under JSON_parse (outage ++ [recovered]) m w) = calls w ++ new
    ∧ documents (redeliver_under JSON_parse (outage ++ [recovered]) m w)
      = documents w
        ++ omap (λ d, if applied_unreported d.1 (stamped v (seconds (now d.2)))
                      then Some (stamped v (seconds (now d.2))) else None) outage
        ++ [stamped v (seconds (now recovered.2))]
    ∧ acks new = [m]
    ∧ nacks new = replicate (length outage) (m, false, true).
Proof.
  intros Hp Hv Hl Hout Hopen Hacc. revert w.
  induction Hout as [|[f env] outage [Hf Henv] _ IH]; intros w.
  - destruct recovered as [f env]. cbn [fst snd] in *.
    cbn [app redeliver_under omap list_omap]. unfold on_delivery_under, try_catch.
    rewrite (processMessage_under_parsed _ _ _ _ _ Hp).
    rewrite (ConsumerFacts.set_property_object _ _ _ Hv).
    fold (stamped v (seconds (now env))).
    rewrite Hacc, (log_line_stamped _ _ Hv), Hl, Hopen. cbn. eauto.
  - cbn [fst snd] in *.
    cbn [app redeliver_under].
    assert (on_delivery_under JSON_parse f env (Some m) w
            = (Ok tt,
               {| calls := calls w ++ InsertOne (stamped v (seconds (now env)))
                                      :: nack_calls m StoreError;
                  documents := documents w
                               ++ if applied_unreported f (stamped v (seconds (now env)))
                                  then [stamped v (seconds (now env))] else [] |})) as ->.
    { unfold on_delivery_under, try_catch.
      rewrite (processMessage_under_parsed _ _ _ _ _ Hp).
      rewrite (ConsumerFacts.set_property_object _ _ _ Hv).
      fold (stamped v (seconds (now env))). by rewrite Henv, Hf. }
    cbn [snd].
    match goal with |- context [redeliver_under _ _ _ ?w1] =>
      destruct (IH w1) as (new & Hc & Hd & Ha & Hn) end.
    cbn [calls documents] in Hc, Hd. rewrite Hc, Hd.
    eexists. split; [by rewrite <- app_assoc|]. split.
    + cbn [omap list_omap fst snd].
      destruct (applied_unreported f (stamped v (seconds (now env)))); cbn;
        by rewrite <- ?app_assoc, ?app_nil_r.
    + unfold acks, nacks in *. rewrite !omap_app, Ha, Hn. done.
Qed.

End WithParser.

(** An outage of two deliveries; the write of the first one is applied
    without being reported: the collection ends with two documents for
    the one message. *)
Lemma outage_stores_one_copy_per_applied_write_witness :
  sample_parse (content (message users_body)) = Some users_value
  ∧ is_object users_value = true
  ∧ log_line users_value
    = Ok (processed_line [Chars "insert"] [Chars "unknown"] [Chars "users"])
  ∧ Forall (λ d : Faults * Env,
              channel_closed d.1 = false ∧ ∀ doc, accepts d.2 doc = false)
      [(write_unreported, store_down 1000); (no_faults, store_down 6000)]
  ∧ channel_closed (no_faults, store_up 11000).1 = false
  ∧ accepts (store_up 11000) (stamped users_value (seconds 11000)) = true
  ∧ ∃ new,
      calls (redeliver_under sample_parse
               ([(write_unreported, store_down 1000); (no_faults, store_down 6000)]
                ++ [(no_faults, store_up 11000)])
               (message users_body) start) = calls start ++ new
      ∧ documents (redeliver_under sample_parse
                     ([(write_unreported, store_down 1000); (no_faults, store_down 6000)]
                      ++ [(no_faults, store_up 11000)])
                     (message users_body) start)
        = documents start
          ++ omap (λ d : Faults * Env,
                     if applied_unreported d.1 (stamped users_value (seconds (now d.2)))
                     then Some (stamped users_value (seconds (now d.2))) else None)
               [(write_unreported, store_down 1000); (no_faults, store_down 6000)]
          ++ [stamped users_value (seconds (now (no_faults, store_up 11000).2))]
      ∧ acks new = [message users_body]
      ∧ nacks new
        = replicate (length [(write_unreported, store_down 1000);
                             (no_faults, store_down 6000)])
            (message users_body, false, true).
Proof.
  assert (Forall (λ d : Faults * Env,
                    channel_closed d.1 = false ∧ ∀ doc, accepts d.2 doc = false)
            [(write_unreported, store_down 1000); (no_faults, store_down 6000)])
    as Hout by (repeat constructor).
  split; [reflexivity|]. split; [reflexivity|]. split; [reflexivity|].
  split; [exact Hout|]. split; [reflexivity|]. split; [reflexivity|].
  apply (outage_stores_one_copy_per_applied_write sample_parse
           [(write_unreported, store_down 1000); (no_faults, store_down 6000)]
           (no_faults, store_up 11000) (message users_body) start users_value
           (processed_line [Chars "insert"] [Chars "unknown"] [Chars "users"]));
    [reflexivity|reflexivity|reflexivity|exact Hout|reflexivity|reflexivity].
Defined.

(** The collection of that witness computed: the document of the first
    delivery, stamped 1, and the document of the third, stamped 11. *)
Example duplicate_after_unreported_write :
  documents (redeliver_under sample_parse
               [(write_unreported, store_down 1000); (no_faults, store_down 6000);
                (no_faults, store_up 11000)]
               (message users_body) start)
  = [stamped users_value (seconds 1000); stamped users_value (seconds 11000)].
Proof. by vm_compute. Qed.

(** A delivery whose channel is closed while the store accepts: the
    document is stored, [ack] and [nack] are both called and both
    throw, and the callback logs the rejection. *)
Example closed_channel_run :
  on_delivery_under sample_parse closed_channel (store_up 1000)
    (Some (message "{}")) start
  = (Ok tt,
     {| calls := [InsertOne (stamped (VObj ∅) (seconds 1000));
                  Log info (processed_line [Chars "unknown"] [Chars "unknown"]
                                           [Chars "unknown"]);
                  Ack (message "{}");
                  Log error_level [Lit [Chars "Error processing message: "];
                                   ErrorMessage BrokerError];
                  Nack (message "{}") false true;
                  Log error_level [Lit [Chars "Error in message processing: "];
                                   ErrorMessage BrokerError]];
        documents := [stamped (VObj ∅) (seconds 1000)] |}).
Proof. by vm_compute. Qed.

End DeliveryFacts.

(** * Further properties of connecting, start-up and shutdown *)
Module LifecycleFacts.
Import JS Consumer Process Projections Samples MoreSamples.

(** The number of attempts begun in [fuel] rounds from attempt [k]. *)
Lemma attempts_begun ok fuel k :
  (failures ok fuel k + match first_success ok fuel k with Some _ => 1 | None => 0 end
   = match fuel with
     | O => O
     | S fuel' => S (if ok k then O
                     else failures ok fuel' (S k)
                          + match first_success ok fuel' (S k) with
                            | Some _ => 1 | None => 0 end)
     end)%nat.
Proof. destruct fuel as [|fuel]; cbn; [done|]. destruct (ok k); lia. Qed.

Section Retry.
Context {A : Type}.
Variable body : nat → P nat.
Variable ok : nat → bool.
Variable warning : string.
Variable f : call → option A.
Hypothesis body_result :
  ∀ k, (body k).2 = Done k ∧ ok k = true ∨ (∃ e, (body k).2 = Thrown e) ∧ ok k = false.
Hypothesis f_log : ∀ l line, f (log l line) = None.
Hypothesis f_sleep : ∀ ms, f (sleep ms) = None.

(** What a projection that ignores the log and the waits sees of the
    loop: what it sees of each attempt begun, in order. *)
Lemma retry_projection fuel k :
  omap f (retry body warning fuel k).1
  = flat_map (λ j, omap f (body j).1)
      (seq k (failures ok fuel k
              + match first_success ok fuel k with Some _ => 1 | None => 0 end)).
Proof.
  revert k. induction fuel as [|fuel IH]; intros k; [done|].
  rewrite attempts_begun. cbn [retry seq flat_map].
  destruct (body k) as [cs r] eqn:Hb.
  destruct (body_result k) as [[Hr ->]|[[e Hr] ->]]; rewrite Hb in Hr; cbn in Hr; subst r.
  - unfold try_catch_P. cbn [fst seq flat_map]. by rewrite app_nil_r.
  - unfold try_catch_P. specialize (IH (S k)).
    destruct (retry body warning fuel (S k)) as [cs' r'] eqn:Hrec. cbn [fst snd] in IH.
    cbn [mbind P_bind do fst snd app]. rewrite omap_app. f_equal.
    cbn [omap list_omap]. rewrite f_log, f_sleep. exact IH.
Qed.

End Retry.

Section WithConfig.
Variable cfg : Config.

Lemma rabbit_attempt_outcome fails k :
  (rabbit_attempt cfg fails k).2 = Done k ∧ works (λ _, fails) k = true
  ∨ (∃ e, (rabbit_attempt cfg fails k).2 = Thrown e) ∧ works (λ _, fails) k = false.
Proof. destruct fails as [[]|]; cbn; eauto. Qed.

Lemma mongo_attempt_outcome fails k :
  (mongo_attempt fails k).2 = Done k ∧ works (λ _, fails) k = true
  ∨ (∃ e, (mongo_attempt fails k).2 = Thrown e) ∧ works (λ _, fails) k = false.
Proof. destruct fails as [[]|]; cbn; eauto. Qed.

Lemma connectToRabbitMQ_projection {A} (f : call → option A) fails fuel k :
  (∀ l line, f (log l line) = None) → (∀ ms, f (sleep ms) = None) →
  omap f (connectToRabbitMQ cfg fails fuel k).1
  = flat_map (λ j, omap f (rabbit_attempt cfg (fails j) j).1)
      (seq k (failures (works fails) fuel k
              + match first_success (works fails) fuel k with Some _ => 1 | None => 0 end)).
Proof.
  intros Hl Hs. apply (retry_projection _ (works fails)); [|done..].
  intros j. destruct (rabbit_attempt_outcome (fails j) j) as [[? ?]|[? ?]]; auto.
Qed.

Lemma connectToMongoDB_projection {A} (f : call → option A) fails fuel k :
  (∀ l line, f (log l line) = None) → (∀ ms, f (sleep ms) = None) →
  omap f (connectToMongoDB fails fuel k).1
  = flat_map (λ j, omap f (mongo_attempt (fails j) j).1)
      (seq k (failures (works fails) fuel k
              + match first_success (works fails) fuel k with Some _ => 1 | None => 0 end)).
Proof.
  intros Hl Hs. apply (retry_projection _ (works fails)); [|done..].
  intros j. destruct (mongo_attempt_outcome (fails j) j) as [[? ?]|[? ?]]; auto.
Qed.

Lemma flat_map_nil {A B} (g : A → list B) l : (∀ x, g x = []) → flat_map g l = [].
Proof. intros Hg. induction l as [|x l IH]; cbn; [done|]. by rewrite Hg, IH. Qed.

(** X5.  Neither connect loop ever closes what it has opened.  Every
    attempt on the broker that gets past [amqp.connect] puts both
    reconnect handlers on its connection, also when a later operation
    of the attempt fails and the loop goes on to open another
    connection. *)
Theorem connect_loops_never_close
    (broker_fails : nat → option broker_op) (store_fails : nat → option store_op)
    (fuel k : nat) :
  connection_closes (connectToRabbitMQ cfg broker_fails fuel k).1 = []
  ∧ client_closes (connectToMongoDB store_fails fuel k).1 = []
  ∧ handlers (connectToRabbitMQ cfg broker_fails fuel k).1
    = flat_map (λ j, match broker_fails j with
                     | Some op_amqp_connect => []
                     | _ => [(j, ev_error); (j, ev_close)]
                     end)
        (broker_attempts (connectToRabbitMQ cfg broker_fails fuel k).1).
Proof.
  destruct (ProcessFacts.connectToRabbitMQ_spec cfg broker_fails fuel k)
    as (_ & _ & _ & ->).
  unfold connection_closes, client_closes, handlers.
  rewrite !connectToRabbitMQ_projection, connectToMongoDB_projection by done.
  split; [|split].
  - apply flat_map_nil. intros j. by destruct (broker_fails j) as [[]|].
  - apply flat_map_nil. intros j. by destruct (store_fails j) as [[]|].
  - apply flat_map_ext. intros j. by destruct (broker_fails j) as [[]|].
Qed.

(** X6.  The SIGINT handler closes the broker connection first and the
    store client only if that call returned: when closing the broker
    connection throws, [mongoClient.close()] is not called at all. *)
Theorem store_closed_only_after_broker_closed (o : Outside) (a b : nat) :
  connection_closes (shutdown o (Some b) (Some a)).1 = [b]
  ∧ client_closes (shutdown o (Some b) (Some a)).1
    = (if connection_close_fails o then [] else [a])
  ∧ exits (shutdown o (Some b) (Some a)).1
    = [if connection_close_fails o || client_close_fails o then 1 else 0].
Proof.
  destruct o as [sf bf pg cg rabbit_close mongo_close]. cbn.
  by destruct rabbit_close, mongo_close.
Qed.

(** X7.  The store comes first: as long as no attempt to connect to the
    store succeeds, [main] makes no call on the broker at all; it stays
    in the store's connect loop, sleeping 5000 ms after each failure. *)
Theorem broker_untouched_until_store_connected (o : Outside) (fuel : nat) :
  first_success (works (store_fails o)) fuel 0 = None →
  (main cfg o fuel).2 = Pending
  ∧ broker_attempts (main cfg o fuel).1 = []
  ∧ sleeps (main cfg o fuel).1 = replicate fuel 5000
  ∧ exits (main cfg o fuel).1 = [].
Proof.
  intros Hnone.
  destruct (ProcessFacts.connectToMongoDB_spec (store_fails o) fuel 0%nat)
    as (Hr & Hs & He & _).
  pose proof (connectToMongoDB_projection
                (λ c, match c with amqp_connect k => Some k | _ => None end)
                (store_fails o) fuel 0%nat) as Hb.
  rewrite ProcessFacts.failures_first_success, Hnone in Hs.
  rewrite Hnone in Hr. unfold main.
  destruct (connectToMongoDB (store_fails o) fuel 0) as [cs r]. cbn [fst snd] in *.
  subst r. cbn. split; [done|]. split; [|by split].
  unfold broker_attempts. rewrite Hb by done.
  apply flat_map_nil. intros j. by destruct (store_fails o j) as [[]|].
Qed.

(** X8.  A rejected [prefetch] or [consume] is not caught.  With both
    connections made and neither call throwing, [main] runs to its end
    whatever becomes of the two promises: it has called [consume], set
    the SIGINT handler and returned; the catch block has not run, so
    nothing is closed and the script calls no [process.exit].  When one
    of the promises is rejected, the process is ended by Node with
    status 1, again with neither connection closed. *)
Theorem rejected_subscription_skips_cleanup (o : Outside) (fuel a b : nat) :
  first_success (works (store_fails o)) fuel 0 = Some a →
  first_success (works (broker_fails o)) fuel 0 = Some b →
  prefetch_goes o ≠ throws_at_once → consume_goes o ≠ throws_at_once →
  (start_application cfg o fuel).2 = Done (a, b)
  ∧ consumes (start_application cfg o fuel).1 = [b]
  ∧ (∀ p, p = start_application cfg o fuel ∨ p = node_consumer cfg o fuel →
       connection_closes p.1 = [] ∧ client_closes p.1 = [] ∧ exits p.1 = [])
  ∧ (unhandled o ≠ [] → (node_consumer cfg o fuel).2 = Exited 1).
Proof.
  destruct o as [sf bf pg cg rabbit_close mongo_close].
  cbn [store_fails broker_fails prefetch_goes consume_goes].
  intros Ha Hb Hpg Hcg.
  destruct (ProcessFacts.connectToRabbitMQ_spec cfg bf fuel 0%nat) as (Hrb & _ & Heb & _).
  destruct (ProcessFacts.connectToMongoDB_spec sf fuel 0%nat) as (Hrs & _ & Hes & _).
  rewrite Ha in Hrs. rewrite Hb in Hrb.
  pose proof (connectToRabbitMQ_projection
                (λ c, match c with connection_close k => Some k | _ => None end)
                bf fuel 0%nat) as Hcr.
  pose proof (connectToMongoDB_projection
                (λ c, match c with connection_close k => Some k | _ => None end)
                sf fuel 0%nat) as Hcs.
  pose proof (connectToRabbitMQ_projection
                (λ c, match c with client_close k => Some k | _ => None end)
                bf fuel 0%nat) as Hmr.
  pose proof (connectToMongoDB_projection
                (λ c, match c with client_close k => Some k | _ => None end)
                sf fuel 0%nat) as Hms.
  pose proof (connectToRabbitMQ_projection
                (λ c, match c with consume k _ => Some k | _ => None end)
                bf fuel 0%nat) as Hor.
  pose proof (connectToMongoDB_projection
                (λ c, match c with consume k _ => Some k | _ => None end)
                sf fuel 0%nat) as Hos.
  rewrite flat_map_nil in Hcr, Hcs, Hmr, Hms, Hor, Hos;
    try done; try (intros j; by destruct (bf j) as [[]|]);
    try (intros j; by destruct (sf j) as [[]|]).
  unfold node_consumer, unhandled, start_application, main.
  cbn [store_fails broker_fails prefetch_goes consume_goes].
  destruct (connectToMongoDB sf fuel 0) as [cs1 r1].
  destruct (connectToRabbitMQ cfg bf fuel 0) as [cs2 r2].
  cbn [fst snd] in *. subst r1 r2.
  unfold connection_closes, client_closes, consumes, exits in *.
  destruct pg, cg; try done; cbn;
    (split; [done|]);
    (split; [by rewrite !omap_app, Hor, Hos|]);
    (split; [|done]);
    intros p [-> | ->]; cbn;
    by rewrite !omap_app, ?Hcr, ?Hcs, ?Hmr, ?Hms, ?Heb, ?Hes.
Qed.

End WithConfig.

Lemma broker_untouched_until_store_connected_witness :
  first_success (works (store_fails store_unreachable)) 3 0 = None
  ∧ (main default_config store_unreachable 3).2 = Pending
  ∧ broker_attempts (main default_config store_unreachable 3).1 = []
  ∧ sleeps (main default_config store_unreachable 3).1 = replicate 3 5000
  ∧ exits (main default_config store_unreachable 3).1 = [].
Proof.
  split; [reflexivity|].
  apply (broker_untouched_until_store_connected default_config store_unreachable 3).
  reflexivity.
Defined.

Lemma rejected_subscription_skips_cleanup_witness :
  first_success (works (store_fails consume_rejected)) 1 0 = Some 0%nat
  ∧ first_success (works (broker_fails consume_rejected)) 1 0 = Some 0%nat
  ∧ prefetch_goes consume_rejected ≠ throws_at_once
  ∧ consume_goes consume_rejected ≠ throws_at_once
  ∧ (start_application default_config consume_rejected 1).2 = Done (0%nat, 0%nat)
  ∧ consumes (start_application default_config consume_rejected 1).1 = [0%nat]
  ∧ (∀ p, p = start_application default_config consume_rejected 1
          ∨ p = node_consumer default_config consume_rejected 1 →
       connection_closes p.1 = [] ∧ client_closes p.1 = [] ∧ exits p.1 = [])
  ∧ (unhandled consume_rejected ≠ [] →
     (node_consumer default_config consume_rejected 1).2 = Exited 1).
Proof.
  assert (prefetch_goes consume_rejected ≠ throws_at_once) as H1 by done.
  assert (consume_goes consume_rejected ≠ throws_at_once) as H2 by done.
  split; [reflexivity|]. split; [reflexivity|]. split; [exact H1|]. split; [exact H2|].
  exact (rejected_subscription_skips_cleanup default_config consume_rejected 1 0 0
           eq_refl eq_refl H1 H2).
Defined.

(** The run of that witness computed: the last thing the script does is
    to set its SIGINT handler; then Node raises the rejection. *)
Example rejected_subscription_run :
  (node_consumer default_config consume_rejected 1).2 = Exited 1
  ∧ ∃ before,
      (node_consumer default_config consume_rejected 1).1
      = before ++ [prefetch 0 1;
                   log info [Lit [Chars "Starting to consume messages..."]];
                   consume 0 "maxwell_consumer"; on_SIGINT;
                   uncaught_rejection op_consume].
Proof.
  split; [reflexivity|].
  by exists (take 14 (node_consumer default_config consume_rejected 1).1).
Qed.

End LifecycleFacts.

(** * Properties of the change monitor *)
Module MonitorFacts.
Import JS Consumer Monitor.

#[export] Instance earlier_total : Total earlier.
Proof.
  intros d1 d2. unfold earlier.
  destruct (received_at_of d1) as [a|], (received_at_of d2) as [b|]; auto.
  destruct (Qclt_le_dec b a) as [H|H]; [right; by apply Qclt_le_weak|by left].
Qed.

Lemma newer_spec t d :
  newer t d = true ↔ ∃ n, received_at_of d = Some n ∧ (t < n)%Qc.
Proof.
  unfold newer. destruct (received_at_of d) as [n|]; split.
  - intros H. apply bool_decide_eq_true_1 in H. eauto.
  - intros (n' & [= <-] & H). by apply bool_decide_eq_true_2.
  - done.
  - by intros (n' & [=] & _).
Qed.

(** What the query finds: the stored documents stamped above the
    threshold, in ascending order of their stamp. *)
Lemma find_newer_spec t docs :
  (∀ d, d ∈ find_newer t docs ↔
        d ∈ docs ∧ ∃ n, received_at_of d = Some n ∧ (t < n)%Qc)
  ∧ Sorted earlier (find_newer t docs).
Proof.
  split; [|apply Sorted_merge_sort, _].
  intros d. unfold find_newer. rewrite merge_sort_Permutation, list_elem_of_filter.
  rewrite <- newer_spec. split; intros [H1 H2]; split; try done.
  - by apply Is_true_true_1.
  - by apply Is_true_true_2.
Qed.

Lemma bind_calls {A B} (m : W A) (f : A → W B) :
  (m ≫= f).1 = m.1 ++ match m.2 with Done a => (f a).1 | _ => [] end.
Proof.
  destruct m as [cs [a|e| |c]]; cbn; rewrite ?app_nil_r; try done.
  by destruct (f a).
Qed.

Lemma bind_outcome {A B} (m : W A) (f : A → W B) :
  (m ≫= f).2 = match m.2 with
               | Done a => (f a).2
               | Thrown e => Thrown e
               | Pending => Pending
               | Exited c => Exited c
               end.
Proof. destruct m as [cs [a|e| |c]]; cbn; try done. by destruct (f a). Qed.

Section WithBuiltins.
Variable ToNumber_other : value → result (option Qc).
Variable toISOString : Z → string.

Local Abbreviation report := (Monitor.report ToNumber_other toISOString).
Local Abbreviation each := (Monitor.each ToNumber_other toISOString).
Local Abbreviation turn := (Monitor.turn ToNumber_other toISOString).
Local Abbreviation loop := (Monitor.loop ToNumber_other toISOString).
Local Abbreviation watch := (Monitor.watch ToNumber_other toISOString).
Local Abbreviation main := (Monitor.main ToNumber_other toISOString).
Local Abbreviation formatTimestamp := (Monitor.formatTimestamp toISOString).

Lemma queries_app a b : queries (a ++ b) = queries a ++ queries b.
Proof. apply omap_app. Qed.

Lemma logs_only_bind {A B} (m : W A) (f : A → W B) :
  logs_only m → (∀ a, logs_only (f a)) → logs_only (m ≫= f).
Proof.
  intros [Hm Hr] Hf. split.
  - rewrite bind_calls. apply Forall_app. split; [done|].
    destruct (m.2); [apply Hf|constructor..].
  - rewrite bind_outcome. destruct (m.2); try done. apply Hf.
Qed.

Lemma logs_only_js {A} (r : result A) : logs_only (js r).
Proof. destruct r; split; cbn; done. Qed.

Lemma logs_only_tell l line : logs_only (tell (say l line)).
Proof. split; [|done]. repeat constructor. eauto. Qed.

Lemma logs_only_formatTimestamp ts : logs_only (formatTimestamp ts).
Proof. unfold Monitor.formatTimestamp. destruct (TimeClip ts); split; cbn; done. Qed.

(** Reporting a change only logs, and returns or throws. *)
Lemma report_logs_only change : logs_only (report change).
Proof.
  unfold Monitor.report.
  repeat first
    [ apply logs_only_tell
    | apply logs_only_bind;
      [first [apply logs_only_js | apply logs_only_formatTimestamp | apply logs_only_tell]
      |intros ?]
    | match goal with |- context [equals ?o ?n] => destruct (equals o n) end ].
Qed.

Lemma logs_only_queries {A} (m : W A) : logs_only m → queries m.1 = [].
Proof.
  intros [H _]. induction H as [|c cs (l & line & ->) _ IH]; [done|]. exact IH.
Qed.

Lemma each_logs_only changes count : logs_only (each changes count).
Proof.
  revert count. induction changes as [|c changes IH]; intros count; [by split|].
  cbn [Monitor.each]. apply logs_only_bind; [apply report_logs_only|intros _; apply IH].
Qed.

Lemma each_done changes count :
  Forall (λ c, (report c).2 = Done tt) changes →
  (each changes count).2 = Done (count + length changes)%nat.
Proof.
  intros H. revert count. induction H as [|c changes Hc _ IH]; intros count.
  - cbn. f_equal. lia.
  - cbn [Monitor.each]. rewrite bind_outcome, Hc, IH. cbn. f_equal. lia.
Qed.

(** One turn: it asks once, with the threshold it was given; it returns
    or throws; if it returns, it hands on the clock reading taken before
    it asked. *)
Lemma turn_shape interval t r :
  ∃ cs,
    (turn interval t r).1
    = toArray t (if query_fails r then None else Some (find_newer t (stored r))) :: cs
    ∧ queries cs = []
    ∧ ((turn interval t r).2 = Done (seconds (clock r))
       ∨ ∃ e, (turn interval t r).2 = Thrown e).
Proof.
  unfold Monitor.turn, query. destruct (query_fails r).
  - exists []. cbn. split; [done|]. split; [done|]. right. eauto.
  - pose proof (each_logs_only (find_newer t (stored r)) 0) as Hl.
    pose proof (logs_only_queries _ Hl) as Hq. destruct Hl as [_ Hr].
    destruct (each (find_newer t (stored r)) 0) as [cs [n|e| |c]] eqn:He;
      cbn [fst snd] in *; try done.
    + eexists. cbn. rewrite He. cbn. split; [reflexivity|].
      split; [|by left]. by rewrite queries_app, Hq.
    + eexists. cbn. rewrite He. cbn. split; [reflexivity|]. split; [done|]. right. eauto.
Qed.

(** X9.  A document is never shown once the monitor has read a clock
    at or past its stamp: if [received_at] is not above the current
    threshold and every later clock reading of the monitor is at or
    past it, no later query finds the document, whenever it reaches the
    collection.  (The consumer stamps a document before it inserts it,
    so a document inserted after a poll whose clock reading has passed
    its stamp is never displayed.) *)
Theorem never_shown_once_clock_passed_stamp interval t rounds d n :
  received_at_of d = Some n → (n ≤ t)%Qc →
  Forall (λ r, (n ≤ seconds (clock r))%Qc) rounds →
  ∀ t' found, (t', Some found) ∈ queries (loop interval t rounds).1 → d ∉ found.
Proof.
  intros Hd Hn Hrounds. revert t Hn.
  induction Hrounds as [|r rounds Hr _ IH]; intros t Hn t' found Hin.
  - cbn in Hin. by apply elem_of_nil in Hin.
  - cbn [Monitor.loop] in Hin. rewrite bind_calls in Hin.
    destruct (turn_shape interval t r) as (cs & Hcs & Hq & Hres).
    rewrite Hcs, queries_app in Hin. cbn [queries omap list_omap] in Hin.
    fold (queries cs) in Hin. rewrite Hq in Hin. cbn [app] in Hin.
    apply elem_of_cons in Hin as [Heq|Hin].
    + injection Heq as -> Hf. destruct (query_fails r); [done|]. injection Hf as ->.
      intros Hfound. apply find_newer_spec in Hfound as (_ & n' & Hn' & Hlt).
      rewrite Hd in Hn'. injection Hn' as <-.
      by apply Qclt_not_le in Hlt.
    + destruct Hres as [Hres|[e Hres]]; rewrite Hres in Hin.
      * by apply (IH _ Hr t' found).
      * by apply elem_of_nil in Hin.
Qed.

(** A piece that ends in a log line has logged something when it is
    done. *)
Lemma bind_says {A B} (m : W A) (f : A → W B) :
  (∀ a b, (f a).2 = Done b → (f a).1 ≠ []) →
  ∀ b, (m ≫= f).2 = Done b → (m ≫= f).1 ≠ [].
Proof.
  intros Hf b. rewrite bind_outcome, bind_calls.
  destruct m as [cs [a|e| |c]]; cbn [fst snd]; try done.
  intros Hb Hnil. apply app_eq_nil in Hnil as [_ Hnil]. by apply (Hf a b).
Qed.

Lemma report_says change : (report change).2 = Done tt → (report change).1 ≠ [].
Proof.
  unfold Monitor.report.
  repeat first
    [ apply bind_says; intros ? ?
    | match goal with |- context [equals ?o ?n] => destruct (equals o n) end ].
  all: intros _; cbn; discriminate.
Qed.

(** A change of a batch that is reported without error has its lines in
    the log of the batch. *)
Lemma each_reports changes count d :
  Forall (λ c, (report c).2 = Done tt) changes → d ∈ changes →
  ∃ before after,
    (each changes count).1 = before ++ (report d).1 ++ after
    ∧ queries before = [] ∧ queries after = [].
Proof.
  intros Hrep Hd. revert count.
  induction Hrep as [|c changes Hc Hrep IH]; intros count.
  - by apply elem_of_nil in Hd.
  - pose proof (logs_only_queries _ (report_logs_only c)) as Hqc.
    pose proof (logs_only_queries _ (each_logs_only changes (S count))) as Hqr.
    cbn [Monitor.each]. rewrite bind_calls, Hc.
    apply elem_of_cons in Hd as [->|Hd].
    + exists [], (each changes (S count)).1. by split.
    + destruct (IH Hd (S count)) as (before & after & -> & Hb & Ha).
      exists ((report c).1 ++ before), after.
      split; [by rewrite <- app_assoc|]. split; [|done].
      by rewrite queries_app, Hqc, Hb.
Qed.

(** The calls of a turn in which the query is answered and every change
    is reported without error. *)
Lemma turn_calls interval t r :
  query_fails r = false →
  Forall (λ c, (report c).2 = Done tt) (find_newer t (stored r)) →
  (turn interval t r).2 = Done (seconds (clock r))
  ∧ ∃ summary,
      (turn interval t r).1
      = toArray t (Some (find_newer t (stored r)))
        :: (each (find_newer t (stored r)) 0).1 ++ summary
      ∧ queries summary = [].
Proof.
  intros Hq Hrep. unfold Monitor.turn, query. rewrite Hq.
  pose proof (each_done _ 0 Hrep) as Hdone. split.
  - rewrite bind_outcome. cbn [snd]. by rewrite bind_outcome, Hdone.
  - rewrite bind_calls. cbn [fst snd]. rewrite bind_calls, Hdone.
    eexists. split; [reflexivity|]. done.
Qed.

(** X10.  A document stamped later than the clock reading of a poll
    that found it is reported again by the next poll.  A document that
    is in the collection at two consecutive polls, with [received_at]
    above the threshold of the first and above the clock read at the
    first, is returned by both queries; and when the changes of both
    batches are reported without error, its lines are logged twice, once
    after each of the two queries. *)
Theorem shown_twice_when_stamped_after_clock interval t r1 r2 rest d n :
  query_fails r1 = false → query_fails r2 = false →
  Forall (λ c, (report c).2 = Done tt) (find_newer t (stored r1)) →
  Forall (λ c, (report c).2 = Done tt) (find_newer (seconds (clock r1)) (stored r2)) →
  d ∈ stored r1 → d ∈ stored r2 →
  received_at_of d = Some n → (t < n)%Qc → (seconds (clock r1) < n)%Qc →
  ∃ found1 found2,
    d ∈ found1 ∧ d ∈ found2
    ∧ (report d).1 ≠ []
    ∧ ∃ first between last,
        (loop interval t (r1 :: r2 :: rest)).1
        = first ++ (report d).1 ++ between ++ (report d).1 ++ last
        ∧ queries first = [(t, Some found1)]
        ∧ queries between = [(seconds (clock r1), Some found2)].
Proof.
  intros Hq1 Hq2 Hrep1 Hrep2 H1 H2 Hd Ht Hc.
  assert (d ∈ find_newer t (stored r1)) as Hf1 by (apply find_newer_spec; eauto).
  assert (d ∈ find_newer (seconds (clock r1)) (stored r2)) as Hf2
    by (apply find_newer_spec; eauto).
  exists (find_newer t (stored r1)), (find_newer (seconds (clock r1)) (stored r2)).
  split; [done|]. split; [done|]. split.
  { apply report_says.
    by apply (proj1 (Forall_forall _ _) Hrep1 d). }
  destruct (turn_calls interval t r1 Hq1 Hrep1) as (Hr1 & sum1 & Hcs1 & Hs1).
  destruct (turn_calls interval (seconds (clock r1)) r2 Hq2 Hrep2) as (Hr2 & sum2 & Hcs2 & Hs2).
  destruct (each_reports _ 0 d Hrep1 Hf1) as (b1 & a1 & He1 & Hb1 & Ha1).
  destruct (each_reports _ 0 d Hrep2 Hf2) as (b2 & a2 & He2 & Hb2 & Ha2).
  cbn [Monitor.loop]. rewrite bind_calls, Hr1, bind_calls, Hr2, Hcs1, Hcs2, He1, He2.
  exists (toArray t (Some (find_newer t (stored r1))) :: b1),
    (a1 ++ sum1 ++ toArray (seconds (clock r1))
                     (Some (find_newer (seconds (clock r1)) (stored r2))) :: b2),
    (a2 ++ sum2 ++ (loop interval (seconds (clock r2)) rest).1).
  split; [|split].
  - cbn. by rewrite <- !app_assoc.
  - cbn. fold (queries b1). by rewrite Hb1.
  - rewrite !queries_app, Ha1, Hs1. cbn. fold (queries b2). by rewrite Hb2.
Qed.

Lemma loop_thrown interval t rounds more e :
  (loop interval t rounds).2 = Thrown e →
  loop interval t (rounds ++ more) = loop interval t rounds.
Proof.
  revert t. induction rounds as [|r rounds IH]; intros t He; [done|].
  cbn [app Monitor.loop] in *. rewrite bind_outcome in He.
  destruct (turn interval t r) as [cs [t1|e1| |c]]; cbn in *; try done.
  destruct (loop interval t1 rounds) as [cs' r'] eqn:Hl. cbn in He. subst r'.
  rewrite IH by (by rewrite Hl). by rewrite Hl.
Qed.

Lemma exits_app a b : exits (a ++ b) = exits a ++ exits b.
Proof. apply omap_app. Qed.

Lemma logs_only_exits {A} (m : W A) : logs_only m → exits m.1 = [].
Proof.
  intros [H _]. induction H as [|c cs (l & line & ->) _ IH]; [done|]. exact IH.
Qed.

Lemma turn_exits interval t r : exits (turn interval t r).1 = [].
Proof.
  unfold Monitor.turn. rewrite bind_calls, exits_app.
  assert (exits (query t r).1 = []) as -> by (unfold query; by destruct (query_fails r)).
  destruct (query t r).2 as [found| | |]; try done.
  rewrite bind_calls, exits_app, (logs_only_exits _ (each_logs_only found 0)).
  by destruct (each found 0).2.
Qed.

(** The loop never ends the process. *)
Lemma loop_exits interval t rounds : exits (loop interval t rounds).1 = [].
Proof.
  revert t. induction rounds as [|r rounds IH]; intros t; [done|].
  cbn [Monitor.loop]. rewrite bind_calls, exits_app, turn_exits.
  destruct (turn interval t r).2; try done. apply IH.
Qed.


Lemma append_nil s : "" +:+ s = s.
Proof. reflexivity. Qed.

Lemma append_cons x a b : String x a +:+ b = String x (a +:+ b).
Proof. reflexivity. Qed.

Lemma substring_full s : String.substring 0 (String.length s) s = s.
Proof. induction s as [|x s IH]; cbn; [done|]. by rewrite IH. Qed.

Lemma prefix_head x a b : String.prefix "T" (String x a) = String.prefix "T" (String x b).
Proof.
  cbn [String.prefix].
  match goal with |- context [Ascii.ascii_dec ?c x] => destruct (Ascii.ascii_dec c x) end;
    [by destruct a, b|done].
Qed.

(** Replacing the first T by a space, when the T comes after a part
    that holds none. *)
Lemma replace_first_T date tail :
  String.index 0 "T" date = None →
  replace_first "T" " " (date +:+ "T" +:+ tail) = date +:+ " " +:+ tail.
Proof.
  induction date as [|x date IH]; intros Hi.
  - rewrite !append_nil, !append_cons, !append_nil. cbn [replace_first].
    match goal with |- context [String.prefix ?p ?s] =>
      assert (String.prefix p s = true) as -> by (by destruct tail) end.
    rewrite append_cons, append_nil. f_equal.
    cbn [String.length String.substring Nat.sub]. rewrite Nat.sub_0_r. apply substring_full.
  - cbn [String.index] in Hi.
    destruct (String.prefix "T" (String x date)) eqn:Hp; [done|].
    destruct (String.index 0 "T" date) eqn:Hd; [done|].
    rewrite !append_cons. cbn [replace_first].
    rewrite (prefix_head x _ date), Hp. f_equal. by apply IH.
Qed.

Lemma substring_append a n b :
  String.substring 0 (String.length a + n) (a +:+ b) = a +:+ String.substring 0 n b.
Proof.
  induction a as [|x a IH]; [done|].
  rewrite !append_cons. cbn [String.length plus String.substring]. by rewrite IH.
Qed.

Lemma substring_all a b : String.substring 0 (String.length a) (a +:+ b) = a.
Proof.
  induction a as [|x a IH]; [by destruct b|].
  rewrite append_cons. cbn [String.length String.substring]. by rewrite IH.
Qed.

(** X12.  [formatTimestamp] turns an ISO date into date, space, time:
    when [toISOString] gives ten characters without a T, a T, and eight
    characters of time before the rest, the result is those ten
    characters, a space, and those eight; the fraction of a second and
    the zone are cut off.  A time that is NaN throws a RangeError. *)
Theorem formatTimestamp_shape (q : Qc) (tv : Z) (date time rest : string) :
  TimeClip (Some q) = Some tv →
  toISOString tv = date +:+ "T" +:+ time +:+ rest →
  String.length date = 10%nat → String.index 0 "T" date = None →
  String.length time = 8%nat →
  formatTimestamp (Some q) = ([], Done (date +:+ " " +:+ time))
  ∧ formatTimestamp None = ([], Thrown RangeError).
Proof.
  intros Hq Hiso Hdate HT Htime. split; [|done].
  unfold Monitor.formatTimestamp. rewrite Hq, Hiso.
  rewrite (replace_first_T date (time +:+ rest) HT).
  change 19%nat with (10 + (1 + 8))%nat. rewrite <- Hdate at 1.
  rewrite substring_append, append_cons, append_nil.
  cbn [String.substring plus]. rewrite <- Htime, substring_all.
  by rewrite append_cons, append_nil.
Qed.

End WithBuiltins.

Import MoreSamples.

Lemma never_shown_once_clock_passed_stamp_witness :
  received_at_of (stored_at 10000) = Some (seconds 10000)
  ∧ (seconds 10000 ≤ seconds 10500)%Qc
  ∧ Forall (λ r, (seconds 10000 ≤ seconds (clock r))%Qc)
      [poll 15500 [stored_at 10000]; poll 20500 [stored_at 10000]]
  ∧ ∀ t' found,
      (t', Some found)
      ∈ queries (loop sample_ToNumber sample_toISOString (Q2Qc 5) (seconds 10500)
                   [poll 15500 [stored_at 10000]; poll 20500 [stored_at 10000]]).1 →
      stored_at 10000 ∉ found.
Proof.
  assert ((seconds 10000 ≤ seconds 10500)%Qc) as H1 by (by vm_compute).
  assert (Forall (λ r, (seconds 10000 ≤ seconds (clock r))%Qc)
            [poll 15500 [stored_at 10000]; poll 20500 [stored_at 10000]]) as H2
    by (repeat constructor; by vm_compute).
  split; [reflexivity|]. split; [exact H1|]. split; [exact H2|].
  exact (never_shown_once_clock_passed_stamp sample_ToNumber sample_toISOString
           (Q2Qc 5) (seconds 10500) _ (stored_at 10000) (seconds 10000) eq_refl H1 H2).
Defined.

Lemma shown_twice_when_stamped_after_clock_witness :
  query_fails (poll 10000 [stored_at 10200]) = false
  ∧ query_fails (poll 15000 [stored_at 10200]) = false
  ∧ Forall (λ c, (report sample_ToNumber sample_toISOString c).2 = Done tt)
      (find_newer (seconds 5000) (stored (poll 10000 [stored_at 10200])))
  ∧ Forall (λ c, (report sample_ToNumber sample_toISOString c).2 = Done tt)
      (find_newer (seconds (clock (poll 10000 [stored_at 10200])))
         (stored (poll 15000 [stored_at 10200])))
  ∧ stored_at 10200 ∈ stored (poll 10000 [stored_at 10200])
  ∧ stored_at 10200 ∈ stored (poll 15000 [stored_at 10200])
  ∧ received_at_of (stored_at 10200) = Some (seconds 10200)
  ∧ (seconds 5000 < seconds 10200)%Qc
  ∧ (seconds (clock (poll 10000 [stored_at 10200])) < seconds 10200)%Qc
  ∧ ∃ found1 found2,
      stored_at 10200 ∈ found1 ∧ stored_at 10200 ∈ found2
      ∧ (report sample_ToNumber sample_toISOString (stored_at 10200)).1 ≠ []
      ∧ ∃ first between last,
          (loop sample_ToNumber sample_toISOString (Q2Qc 5) (seconds 5000)
             [poll 10000 [stored_at 10200]; poll 15000 [stored_at 10200]]).1
          = first ++ (report sample_ToNumber sample_toISOString (stored_at 10200)).1
              ++ between
              ++ (report sample_ToNumber sample_toISOString (stored_at 10200)).1 ++ last
          ∧ queries first = [(seconds 5000, Some found1)]
          ∧ queries between
            = [(seconds (clock (poll 10000 [stored_at 10200])), Some found2)].
Proof.
  assert (find_newer (seconds 5000) (stored (poll 10000 [stored_at 10200]))
          = [stored_at 10200]) as Hfind1 by (vm_compute; reflexivity).
  assert (find_newer (seconds (clock (poll 10000 [stored_at 10200])))
            (stored (poll 15000 [stored_at 10200]))
          = [stored_at 10200]) as Hfind2 by (vm_compute; reflexivity).
  assert (Forall (λ c, (report sample_ToNumber sample_toISOString c).2 = Done tt)
            (find_newer (seconds 5000) (stored (poll 10000 [stored_at 10200])))) as Hrep1
    by (rewrite Hfind1; constructor; [vm_compute; reflexivity | constructor]).
  assert (Forall (λ c, (report sample_ToNumber sample_toISOString c).2 = Done tt)
            (find_newer (seconds (clock (poll 10000 [stored_at 10200])))
               (stored (poll 15000 [stored_at 10200])))) as Hrep2
    by (rewrite Hfind2; constructor; [vm_compute; reflexivity | constructor]).
  assert (stored_at 10200 ∈ [stored_at 10200]) as Hin by apply list_elem_of_here.
  assert ((seconds 5000 < seconds 10200)%Qc) as H1 by (by vm_compute).
  assert ((seconds 10000 < seconds 10200)%Qc) as H2 by (by vm_compute).
  split; [reflexivity|]. split; [reflexivity|]. split; [exact Hrep1|]. split; [exact Hrep2|].
  split; [exact Hin|]. split; [exact Hin|]. split; [reflexivity|].
  split; [exact H1|]. split; [exact H2|].
  exact (shown_twice_when_stamped_after_clock sample_ToNumber sample_toISOString
           (Q2Qc 5) (seconds 5000) (poll 10000 [stored_at 10200])
           (poll 15000 [stored_at 10200]) [] (stored_at 10200) (seconds 10200)
           eq_refl eq_refl Hrep1 Hrep2 Hin Hin eq_refl H1 H2).
Defined.


Lemma formatTimestamp_shape_witness :
  TimeClip (Some (Q2Qc 1690000000)) = Some 1690000000
  ∧ sample_toISOString 1690000000 = "1970-01-20" +:+ "T" +:+ "13:26:40" +:+ ".000Z"
  ∧ String.length "1970-01-20" = 10%nat
  ∧ String.index 0 "T" "1970-01-20" = None
  ∧ String.length "13:26:40" = 8%nat
  ∧ formatTimestamp sample_toISOString (Some (Q2Qc 1690000000))
    = ([], Done ("1970-01-20" +:+ " " +:+ "13:26:40"))
  ∧ formatTimestamp sample_toISOString None = ([], Thrown RangeError).
Proof.
  split; [reflexivity|]. split; [reflexivity|]. split; [reflexivity|].
  split; [reflexivity|]. split; [reflexivity|].
  apply (formatTimestamp_shape sample_toISOString (Q2Qc 1690000000) 1690000000
           "1970-01-20" "13:26:40" ".000Z"); reflexivity.
Defined.

End MonitorFacts.
(** * Properties of the test-traffic workers *)
Module WorkerFacts.
Import JS Consumer Worker.

Lemma batches_none (x c : Z) : 1 ≤ c → x ≤ 0 → batches x c = O.
Proof.
  intros Hc Hx. unfold batches.
  assert ((x + c - 1) / c < 1) by (apply Z.div_lt_upper_bound; lia). lia.
Qed.

Lemma batches_more (x c : Z) : 1 ≤ c → 1 ≤ x → batches x c = S (batches (x - c) c).
Proof.
  intros Hc Hx. unfold batches.
  replace (x + c - 1) with ((x - c + c - 1) + 1 * c) by lia.
  rewrite Z.div_add by lia.
  assert (0 ≤ (x - c + c - 1) / c) by (apply Z.div_pos; lia). lia.
Qed.

Lemma all_resolved (l : list settled) :
  (∀ s, s ∈ l → s ≠ rejected) → all l = ([], Done l).
Proof.
  intros H. unfold all. destruct (existsb is_rejected l) eqn:E; [|done].
  apply existsb_exists in E as (s & Hin & Hs). destruct s; [|done].
  exfalso. by apply (H rejected); [apply list_elem_of_In|].
Qed.

Lemma all_rejected (l : list settled) : rejected ∈ l → all l = ([], Rejected).
Proof.
  intros H. unfold all.
  replace (existsb is_rejected l) with true; [done|].
  symmetry. apply existsb_exists. exists rejected. by split; [apply list_elem_of_In|].
Qed.

Section Runner.

Variable out : Outside.

(** Once an attempt succeeds the connection loop returns, and it has
    done nothing but connect, warn and sleep. *)
Lemma connectToMySQL_returns (fuel n m : nat) :
  (n ≤ m)%nat → (m < n + fuel)%nat → connect_fails out m = false →
  ∃ es, connectToMySQL out fuel n = (es, Done tt)
        ∧ launches es = [] ∧ begun_at es = [] ∧ wait_lines es = [] ∧ ends es = O.
Proof.
  revert n. induction fuel as [|fuel IH]; intros n Hn Hm Hok; [lia|].
  cbn [connectToMySQL]. destruct (connect_fails out n) eqn:Hfail.
  - assert (n ≠ m) by congruence.
    destruct (IH (S n)) as (es & Hes & H1 & H2 & H3 & H4); [lia|lia|done|].
    rewrite Hes. eexists. split; [reflexivity|]. cbn. done.
  - eexists. split; [reflexivity|]. done.
Qed.

(** The connection loop sleeps 5000 ms after each failed attempt and
    begins no batch. *)
Lemma connectToMySQL_retries (fuel n m : nat) :
  (n ≤ m)%nat → (m < n + fuel)%nat → connect_fails out m = false →
  ∃ retries, (retries ≤ m - n)%nat
             ∧ rhythm (connectToMySQL out fuel n).1 = replicate retries (inr (Q2Qc 5000)).
Proof.
  revert n. induction fuel as [|fuel IH]; intros n Hn Hm Hok; [lia|].
  cbn [connectToMySQL]. destruct (connect_fails out n) eqn:Hfail.
  - assert (n ≠ m) by congruence.
    destruct (IH (S n)) as (retries & Hle & Hes); [lia|lia|done|].
    destruct (connectToMySQL out fuel (S n)) as [es r].
    exists (S retries). split; [lia|]. unfold rhythm in *. cbn in *. by rewrite Hes.
  - exists O. split; [lia|done].
Qed.

Variable opening : event.
Variable pauses : option Qc.
Variable counts : bool.
Variable n c : Z.

Local Abbreviation batch_loop :=
  (Worker.batch_loop out pauses counts (Int n) (Int c)).

Lemma batch_loop_over (fuel k : nat) (i : Z) :
  n ≤ i → batch_loop (S fuel) k (Int i) = ([], Done tt).
Proof.
  intros Hi. cbn [Worker.batch_loop lt].
  by replace (i <? n) with false by lia.
Qed.

(** A round in which no promise is rejected. *)
Lemma batch_loop_round (fuel k : nat) (i : Z) :
  i < n → (∀ j, settle out k j ≠ rejected) →
  ∃ successful waits,
    batch_loop (S fuel) k (Int i)
    = ([running (Int i) (Int c) (Int (Z.min c (n - i)));
        launched (Z.to_nat (Z.min c (n - i)));
        executing (Int i) (Int c) (Int (Z.min c (n - i)));
        completed (Int i) (Int c) successful]
         ++ waits ++ (batch_loop fuel (S k) (Int (i + c))).1,
       (batch_loop fuel (S k) (Int (i + c))).2)
    ∧ launches waits = [] ∧ begun_at waits = [] ∧ ends waits = O
    ∧ wait_lines waits
      = match pauses with
        | Some _ => if i + Z.min c (n - i) <? n then [Int i] else []
        | None => []
        end.
Proof.
  intros Hi Hclean. cbn [Worker.batch_loop lt min sub add iterations].
  replace (i <? n) with true by lia.
  rewrite all_resolved; last first.
  { intros s (j & -> & _)%list_elem_of_fmap. apply Hclean. }
  destruct (batch_loop fuel (S k) (Int (i + c))) as [es r] eqn:Hrest.
  destruct pauses as [interval|].
  - destruct (i + Z.min c (n - i) <? n) eqn:Hmore.
    + eexists _, [waiting (Int i) (Int c) interval; pause (interval * Q2Qc 1000)%Qc].
      split; [|done]. done.
    + eexists _, []. split; [|done]. done.
  - eexists _, []. split; [|done]. done.
Qed.

Lemma begun_at_shift (i : Z) (b : nat) :
  (λ q : nat, Int (i + c + Z.of_nat q * c)) <$> seq 0 b
  = (λ q : nat, Int (i + Z.of_nat q * c)) <$> seq 1 b.
Proof.
  rewrite <- fmap_S_seq, <- list_fmap_compose. apply list_fmap_ext.
  intros _ q _. cbn. f_equal. lia.
Qed.

(** With a concurrency of at least one and no promise rejected, the
    loop ends after the batches it needs. *)
Lemma batch_loop_completes (fuel k : nat) (i : Z) :
  1 ≤ c → (∀ k j, settle out k j ≠ rejected) → (batches (n - i) c < fuel)%nat →
  ∃ es, batch_loop fuel k (Int i) = (es, Done tt)
    ∧ begun_at es = (λ q : nat, Int (i + Z.of_nat q * c)) <$> seq 0 (batches (n - i) c)
    ∧ sum_list (launches es) = Z.to_nat (n - i)
    ∧ Forall (λ p, (1 ≤ p ≤ Z.to_nat c)%nat) (launches es)
    ∧ wait_lines es
      = match pauses with Some _ => removelast (begun_at es) | None => [] end
    ∧ ends es = O.
Proof.
  intros Hc Hclean. revert k i.
  induction fuel as [|fuel IH]; intros k i Hfuel; [lia|].
  destruct (Z_lt_le_dec i n) as [Hi|Hi].
  - destruct (batch_loop_round fuel k i Hi (Hclean k))
      as (successful & waits & Heq & Hw1 & Hw2 & Hw3 & Hw4).
    rewrite (batches_more (n - i) c) in * by lia.
    destruct (IH (S k) (i + c)) as (es & Hes & Hb & Hl & Hf & Hwa & He).
    { replace (n - (i + c)) with (n - i - c) by lia. lia. }
    replace (n - (i + c)) with (n - i - c) in * by lia.
    rewrite Heq, Hes. cbn [fst snd]. eexists. split; [reflexivity|].
    unfold begun_at, launches, wait_lines, ends in *.
    rewrite !omap_app, ?length_app, ?sum_list_with_app, Hw1, Hw2, Hw3, Hw4, Hb, Hl, He.
    rewrite begun_at_shift.
    cbn [omap list_omap option_bind mbind app length sum_list_with Nat.add].
    split; [|split; [|split; [|split]]].
    + cbn. do 2 f_equal. lia.
    + unfold id. lia.
    + constructor; [lia|done].
    + destruct pauses as [interval|]; [|done].
      rewrite Hwa, Hb, begun_at_shift.
      destruct (batches (n - i - c) c) as [|b] eqn:Hb'.
      * destruct (Z_le_gt_dec (n - i - c) 0) as [Hle|Hgt].
        -- by replace (i + Z.min c (n - i) <? n) with false by lia.
        -- rewrite (batches_more (n - i - c) c) in Hb' by lia. done.
      * destruct (Z_le_gt_dec (n - i - c) 0) as [Hle|Hgt].
        -- rewrite (batches_none (n - i - c) c) in Hb' by lia. done.
        -- by replace (i + Z.min c (n - i) <? n) with true by lia.
    + done.
  - rewrite (batch_loop_over fuel k i Hi), (batches_none (n - i) c) by lia.
    eexists. split; [reflexivity|].
    replace (Z.to_nat (n - i)) with O by lia.
    by destruct pauses.
Qed.

(** With a concurrency of zero or less the loop never ends and never
    launches a promise. *)
Lemma batch_loop_stuck (fuel k : nat) (i : Z) :
  c ≤ 0 → i < n →
  ∃ es, batch_loop fuel k (Int i) = (es, Pending)
    ∧ length (begun_at es) = fuel
    ∧ Forall (λ p, p = O) (launches es)
    ∧ ends es = O.
Proof.
  intros Hc. revert k i. induction fuel as [|fuel IH]; intros k i Hi.
  - by eexists.
  - destruct (IH (S k) (i + c)) as (es & Hes & Hb & Hl & He); [lia|].
    cbn [Worker.batch_loop lt min sub add iterations].
    replace (i <? n) with true by lia.
    replace (Z.to_nat (Z.min c (n - i))) with O by lia.
    rewrite Hes. cbn [seq fmap list_fmap all existsb].
    destruct pauses as [interval|].
    + replace (i + Z.min c (n - i) <? n) with true by lia.
      eexists. split; [reflexivity|]. split; [|split].
      * cbn. f_equal. exact Hb.
      * cbn. constructor; [done|exact Hl].
      * exact He.
    + eexists. split; [reflexivity|]. split; [|split].
      * cbn. f_equal. exact Hb.
      * cbn. constructor; [done|exact Hl].
      * exact He.
Qed.

(** The loop stops at the first batch with a rejected promise. *)
Lemma batch_loop_rejected (d fuel k j : nat) (i : Z) :
  1 ≤ c → (d < fuel)%nat → (d < batches (n - i) c)%nat →
  (∀ k' j', (k ≤ k' < k + d)%nat → settle out k' j' ≠ rejected) →
  (j < Z.to_nat (Z.min c (n - (i + Z.of_nat d * c))))%nat →
  settle out (k + d) j = rejected →
  ∃ es, batch_loop fuel k (Int i) = (es, Rejected)
    ∧ begun_at es = (λ q : nat, Int (i + Z.of_nat q * c)) <$> seq 0 (S d)
    ∧ wait_lines es
      = match pauses with
        | Some _ => (λ q : nat, Int (i + Z.of_nat q * c)) <$> seq 0 d
        | None => []
        end
    ∧ ends es = O.
Proof.
  intros Hc. revert fuel k i.
  induction d as [|d IH]; intros fuel k i Hfuel Hd Hclean Hj Hrej.
  - destruct fuel as [|fuel]; [lia|].
    assert (i < n) as Hi.
    { destruct (Z_lt_le_dec i n); [done|].
      rewrite (batches_none (n - i) c) in Hd by lia. lia. }
    cbn [Worker.batch_loop lt min sub add iterations].
    replace (i <? n) with true by lia.
    rewrite all_rejected; last first.
    { apply list_elem_of_fmap. exists j. split.
      - by rewrite Nat.add_0_r in Hrej.
      - apply elem_of_seq. replace (i + Z.of_nat 0 * c) with i in Hj by lia. lia. }
    eexists. split; [reflexivity|]. cbn.
    replace (i + Z.of_nat 0 * c) with i by lia. by destruct pauses.
  - destruct fuel as [|fuel]; [lia|].
    assert (i < n) as Hi.
    { destruct (Z_lt_le_dec i n); [done|].
      rewrite (batches_none (n - i) c) in Hd by lia. lia. }
    rewrite (batches_more (n - i) c) in Hd by lia.
    assert (1 ≤ n - i - c) as Hmore.
    { destruct (Z_le_gt_dec (n - i - c) 0); [|lia].
      rewrite (batches_none (n - i - c) c) in Hd by lia. lia. }
    destruct (batch_loop_round fuel k i Hi)
      as (successful & waits & Heq & Hw1 & Hw2 & Hw3 & Hw4).
    { intros j'. apply Hclean. lia. }
    destruct (IH fuel (S k) (i + c)) as (es & Hes & Hb & Hwa & He).
    + lia.
    + replace (n - (i + c)) with (n - i - c) by lia. lia.
    + intros k' j' Hk'. apply Hclean. lia.
    + replace (i + c + Z.of_nat d * c) with (i + Z.of_nat (S d) * c) by lia. done.
    + by replace (S k + d)%nat with (k + S d)%nat by lia.
    + rewrite Heq, Hes. cbn [fst snd]. eexists. split; [reflexivity|].
      unfold begun_at, wait_lines, ends in *.
      rewrite !omap_app, ?length_app, Hw2, Hw3, Hw4, Hb, Hwa, He.
      rewrite begun_at_shift.
      cbn [omap list_omap option_bind mbind app length Nat.add].
      split; [|split; [|done]].
      * cbn. do 2 f_equal. lia.
      * destruct pauses as [interval|]; [|done].
        replace (i + Z.min c (n - i) <? n) with true by lia.
        rewrite begun_at_shift. cbn. do 2 f_equal. lia.
Qed.

Lemma emit_events {B} (e : event) (rest : R B) : (emit e;; rest).1 = e :: rest.1.
Proof. by destruct rest as [es []]. Qed.

(** Past the end of the operations the loop does nothing. *)
Lemma batch_loop_nothing (fuel k : nat) (i : Z) :
  n ≤ i → (batch_loop fuel k (Int i)).1 = [].
Proof.
  intros Hi. destruct fuel as [|fuel]; [done|].
  cbn [Worker.batch_loop lt]. by replace (i <? n) with false by lia.
Qed.

(** Before the end it begins a batch, unless it is not observed. *)
Lemma batch_loop_begins (fuel k : nat) (i : Z) :
  i < n → (batch_loop fuel k (Int i)).2 ≠ Pending →
  ∃ rest, begun_at (batch_loop fuel k (Int i)).1 = Int i :: rest.
Proof.
  intros Hi Hout. destruct fuel as [|fuel]; [done|].
  cbn [Worker.batch_loop lt]. replace (i <? n) with true by lia.
  rewrite emit_events. by eexists.
Qed.

(** The sleeps of the loop: one between each batch and the next when
    the loop has an interval, none when it has not. *)
Lemma batch_loop_rhythm (fuel k : nat) (i : Z) :
  1 ≤ c → (batch_loop fuel k (Int i)).2 ≠ Pending →
  rhythm (batch_loop fuel k (Int i)).1
  = match pauses with
    | Some interval =>
        between (interval * Q2Qc 1000)%Qc (begun_at (batch_loop fuel k (Int i)).1)
    | None => inl <$> begun_at (batch_loop fuel k (Int i)).1
    end.
Proof.
  intros Hc. revert k i. induction fuel as [|fuel IH]; intros k i Hout; [done|].
  destruct (Z_lt_le_dec i n) as [Hi|Hi]; last first.
  { rewrite (batch_loop_nothing (S fuel) k i Hi). by destruct pauses. }
  pose proof (IH (S k) (i + c)) as IHnext.
  pose proof (batch_loop_begins fuel (S k) (i + c)) as Hbegins.
  pose proof (batch_loop_nothing fuel (S k) (i + c)) as Hnothing.
  revert Hout. cbn [Worker.batch_loop lt min sub add iterations].
  replace (i <? n) with true by lia.
  destruct (batch_loop fuel (S k) (Int (i + c))) as [es r].
  cbn [fst snd] in *.
  unfold all. destruct (existsb _ _).
  { intros _. by destruct pauses. }
  destruct pauses as [interval|].
  - destruct (i + Z.min c (n - i) <? n) eqn:Hmore.
    + cbn. intros Hr.
      change (omap _ es) with (rhythm es) at 1.
      change (omap _ es) with (begun_at es).
      rewrite (IHnext Hr).
      destruct Hbegins as [rest Hrest]; [lia|done|]. by rewrite Hrest.
    + cbn. intros Hr. rewrite Hnothing by lia. done.
  - cbn. intros Hr.
    change (omap _ es) with (rhythm es) at 1.
    change (omap _ es) with (begun_at es).
    by rewrite (IHnext Hr).
Qed.

End Runner.

(** A run is the connection loop, the first line, the batches and the
    [finally] block. *)
Lemma run_unfolds (out : Outside) (opening : event) (pauses : option Qc) (counts : bool)
    (numOperations concurrency : num) (fuel m : nat) (esb : list event)
    (r : outcome unit) :
  (m < fuel)%nat → connect_fails out m = false →
  batch_loop out pauses counts numOperations concurrency fuel 0 (Int 0) = (esb, r) →
  ∃ esc,
    launches esc = [] ∧ begun_at esc = [] ∧ wait_lines esc = [] ∧ ends esc = O
    ∧ run out opening pauses counts numOperations concurrency fuel
      = (esc ++ opening :: esb
           ++ match r with
              | Done _ | Rejected =>
                  connection_end
                  :: (if end_fails out then []
                      else [said info "MySQL connection closed"])
              | _ => []
              end,
         match r with
         | Done _ => if end_fails out then Rejected else Done tt
         | other => other
         end).
Proof.
  intros Hm Hok Hloop.
  destruct (connectToMySQL_returns out fuel 0 m) as (esc & Hesc & H1 & H2 & H3 & H4);
    [lia|lia|done|].
  exists esc. repeat (split; [done|]).
  unfold run, finalizer. rewrite Hesc, Hloop.
  by destruct r as [[]| | |]; destruct (end_fails out); cbn; rewrite ?app_nil_r.
Qed.

(** The sleeps of a whole run that is not cut short: those of the
    connection loop, then those between the batches. *)
Lemma run_rhythm (out : Outside) (opening : event) (pauses : option Qc) (counts : bool)
    (n c : Z) (fuel m : nat) :
  1 ≤ c → (m < fuel)%nat → connect_fails out m = false →
  rhythm [opening] = [] → begun_at [opening] = [] →
  (batch_loop out pauses counts (Int n) (Int c) fuel 0 (Int 0)).2 ≠ Pending →
  ∃ retries,
    (retries ≤ m)%nat
    ∧ rhythm (run out opening pauses counts (Int n) (Int c) fuel).1
      = replicate retries (inr (Q2Qc 5000))
        ++ match pauses with
           | Some interval =>
               between (interval * Q2Qc 1000)%Qc
                 (begun_at (run out opening pauses counts (Int n) (Int c) fuel).1)
           | None => inl <$> begun_at (run out opening pauses counts (Int n) (Int c) fuel).1
           end.
Proof.
  intros Hc Hm Hok Ho1 Ho2 Hout.
  destruct (connectToMySQL_returns out fuel 0 m) as (esc & Hesc & _ & Hc2 & _ & _);
    [lia|lia|done|].
  destruct (connectToMySQL_retries out fuel 0 m) as (retries & Hle & Hretries);
    [lia|lia|done|].
  rewrite Hesc in Hretries. cbn [fst] in Hretries.
  pose proof (batch_loop_rhythm out pauses counts n c fuel 0 0 Hc Hout) as Hloop.
  exists retries. split; [lia|].
  unfold run, finalizer. rewrite Hesc.
  destruct (batch_loop out pauses counts (Int n) (Int c) fuel 0 (Int 0)) as [esb r].
  cbn [fst snd] in *.
  assert (∀ fin : list event,
            fin = [] ∨ fin = [connection_end]
            ∨ fin = [connection_end; said info "MySQL connection closed"] →
            rhythm (esc ++ opening :: esb ++ fin)
            = replicate retries (inr (Q2Qc 5000))
              ++ match pauses with
                 | Some interval =>
                     between (interval * Q2Qc 1000)%Qc
                       (begun_at (esc ++ opening :: esb ++ fin))
                 | None => inl <$> begun_at (esc ++ opening :: esb ++ fin)
                 end) as Hfin.
  { intros fin Hfin.
    change (opening :: esb ++ fin) with ([opening] ++ esb ++ fin).
    unfold rhythm, begun_at in *. rewrite !omap_app, Hretries, Hc2, Ho1, Ho2, Hloop.
    by destruct Hfin as [-> | [-> | ->]]; cbn; rewrite ?app_nil_r. }
  destruct r as [[]| | |]; [| |done|]; destruct (end_fails out); cbn;
    first [apply Hfin; auto | rewrite <- (app_nil_r esb); apply Hfin; auto].
Qed.

(** With a concurrency that is not a number the loop runs one empty
    batch at most. *)
Lemma batch_loop_NaN (out : Outside) (pauses : option Qc) (counts : bool)
    (numOperations : num) (fuel : nat) :
  (2 ≤ fuel)%nat →
  ∃ esb, batch_loop out pauses counts numOperations NaN fuel 0 (Int 0) = (esb, Done tt)
         ∧ sum_list (launches esb) = O ∧ ends esb = O.
Proof.
  intros Hfuel. destruct fuel as [|[|fuel]]; [lia|lia|].
  cbn [batch_loop]. destruct (lt (Int 0) numOperations).
  - cbn [min iterations seq fmap list_fmap all existsb add lt].
    destruct pauses; eexists; (split; [reflexivity|done]).
  - by eexists.
Qed.

Section Runs.

Variable out : Outside.
Variable n c : Z.
Variable interval : Qc.
Variable fuel m : nat.
Hypothesis connected : connect_fails out m = false.
Hypothesis observed : (m < fuel)%nat.

Lemma from_zero (b : nat) :
  (λ q : nat, Int (0 + Z.of_nat q * c)) <$> seq 0 b
  = (λ q : nat, Int (Z.of_nat q * c)) <$> seq 0 b.
Proof. apply list_fmap_ext. intros _ q _. cbn. f_equal. Qed.

(** X13 [runParallelUpserts], [runOperations]: with a concurrency of at
    least one, at most 2^53 operations and no promise rejected, both
    runners end; the batches begin at 0, c, 2c, ... and are as many as
    needed for n operations c at a time; every batch launches between 1
    and c promises, n in all; and the connection is ended once. *)
Theorem batches_cover_the_operations :
  1 ≤ c → n ≤ 2 ^ 53 →
  (∀ k j, settle out k j ≠ rejected) →
  (batches n c < fuel)%nat →
  Forall (λ result : R unit,
            result.2 = (if end_fails out then Rejected else Done tt)
            ∧ begun_at result.1 = (λ q : nat, Int (Z.of_nat q * c)) <$> seq 0 (batches n c)
            ∧ sum_list (launches result.1) = Z.to_nat n
            ∧ Forall (λ p, (1 ≤ p ≤ Z.to_nat c)%nat) (launches result.1)
            ∧ ends result.1 = 1%nat)
    [runParallelUpserts out (Int n) (Int c) fuel;
     runOperations out (Int n) interval (Int c) fuel].
Proof.
  intros Hc _ Hclean Hfuel.
  assert (∀ opening pauses counts,
            launches [opening] = [] → begun_at [opening] = [] → ends [opening] = O →
            let result := run out opening pauses counts (Int n) (Int c) fuel in
            result.2 = (if end_fails out then Rejected else Done tt)
            ∧ begun_at result.1 = (λ q : nat, Int (Z.of_nat q * c)) <$> seq 0 (batches n c)
            ∧ sum_list (launches result.1) = Z.to_nat n
            ∧ Forall (λ p, (1 ≤ p ≤ Z.to_nat c)%nat) (launches result.1)
            ∧ ends result.1 = 1%nat) as Hrun.
  { intros opening pauses counts Ho1 Ho2 Ho3.
    destruct (batch_loop_completes out pauses counts n c fuel 0 0 Hc Hclean)
      as (esb & Hloop & Hb & Hl & Hf & _ & He).
    { by rewrite Z.sub_0_r. }
    rewrite Z.sub_0_r, from_zero in *.
    destruct (run_unfolds out opening pauses counts (Int n) (Int c) fuel m esb (Done tt)
                observed connected Hloop) as (esc & Hc1 & Hc2 & _ & Hc4 & Hrun).
    cbn zeta. rewrite Hrun. cbn [fst snd].
    change (opening :: ?l) with ([opening] ++ l).
    unfold begun_at, launches, ends in *.
    rewrite !omap_app, !length_app, !sum_list_with_app, Hc1, Hc2, Hc4, Ho1, Ho2, Ho3, Hb, Hl, He.
    by destruct (end_fails out); cbn; rewrite ?app_nil_r, ?Nat.add_0_r. }
  repeat constructor; by apply Hrun.
Qed.


(** X15 [runParallelUpserts], [runOperations]: with a concurrency of
    zero or less and at least one operation, neither runner ever ends:
    however long it is observed it is still running, has begun a batch
    in every round, has launched no promise and has not ended the
    connection. *)
Theorem nonpositive_concurrency_never_ends :
  c ≤ 0 → 1 ≤ n →
  Forall (λ result : R unit,
            result.2 = Pending
            ∧ length (begun_at result.1) = fuel
            ∧ Forall (λ p, p = O) (launches result.1)
            ∧ ends result.1 = O)
    [runParallelUpserts out (Int n) (Int c) fuel;
     runOperations out (Int n) interval (Int c) fuel].
Proof.
  intros Hc Hn.
  assert (∀ opening pauses counts,
            launches [opening] = [] → begun_at [opening] = [] → ends [opening] = O →
            let result := run out opening pauses counts (Int n) (Int c) fuel in
            result.2 = Pending
            ∧ length (begun_at result.1) = fuel
            ∧ Forall (λ p, p = O) (launches result.1)
            ∧ ends result.1 = O) as Hrun.
  { intros opening pauses counts Ho1 Ho2 Ho3.
    destruct (batch_loop_stuck out pauses counts n c fuel 0 0 Hc) as (esb & Hloop & Hb & Hl & He);
      [lia|].
    destruct (run_unfolds out opening pauses counts (Int n) (Int c) fuel m esb Pending
                observed connected Hloop) as (esc & Hc1 & Hc2 & _ & Hc4 & Hrun).
    cbn zeta. rewrite Hrun. cbn [fst snd].
    change (opening :: ?l) with ([opening] ++ l).
    unfold begun_at, launches, ends in *.
    rewrite !omap_app, !length_app, Hc1, Hc2, Hc4, Ho1, Ho2, Ho3, Hb, He.
    cbn. by rewrite !app_nil_r, !Nat.add_0_r. }
  repeat constructor; by apply Hrun.
Qed.

(** X17 [runOperations], [main]: when a promise of batch k is the first
    to be rejected, the batches up to k are begun and no other; the run
    has slept [interval * 1000] ms between each of these batches and
    the next, and not after batch k; the connection is ended once and
    the process exits with status 1. *)
Theorem rejection_ends_the_run (k j : nat) :
  1 ≤ c → n ≤ 2 ^ 53 →
  (k < fuel)%nat → (k < batches n c)%nat →
  (∀ k' j', (k' < k)%nat → settle out k' j' ≠ rejected) →
  (j < Z.to_nat (Z.min c (n - Z.of_nat k * c)))%nat →
  settle out k j = rejected →
  ∃ es,
    operations_main out (Int n) interval (Int c) fuel
    = (es ++ [complained "Failed to start worker: "; exit 1], Exited 1)
    ∧ begun_at es = (λ q : nat, Int (Z.of_nat q * c)) <$> seq 0 (S k)
    ∧ (∃ retries,
         (retries ≤ m)%nat
         ∧ rhythm es = replicate retries (inr (Q2Qc 5000))
                       ++ between (interval * Q2Qc 1000)%Qc (begun_at es))
    ∧ wait_lines es = (λ q : nat, Int (Z.of_nat q * c)) <$> seq 0 k
    ∧ ends es = 1%nat.
Proof.
  intros Hc _ Hk Hbatches Hclean Hj Hrej.
  destruct (batch_loop_rejected out (Some interval) false n c k fuel 0 j 0 Hc Hk)
    as (esb & Hloop & Hb & Hw & He).
  { by rewrite Z.sub_0_r. }
  { intros k' j' Hk'. apply Hclean. lia. }
  { by rewrite Z.add_0_l. }
  { done. }
  rewrite !from_zero in *.
  destruct (run_rhythm out (starting (Int c)) (Some interval) false n c fuel m
              Hc observed connected) as (retries & Hle & Hrhythm); [done|done| |].
  { by rewrite Hloop. }
  destruct (run_unfolds out (starting (Int c)) (Some interval) false (Int n) (Int c)
              fuel m esb Rejected observed connected Hloop)
    as (esc & _ & Hc2 & Hc3 & Hc4 & Hrun).
  unfold operations_main, runOperations. rewrite Hrun in *. cbn [fst] in Hrhythm.
  eexists. split; [reflexivity|].
  split; [|split; [|split]].
  - change (starting (Int c) :: ?l) with ([starting (Int c)] ++ l).
    unfold begun_at in *. rewrite !omap_app, Hc2, Hb.
    by destruct (end_fails out); cbn; rewrite ?app_nil_r.
  - exists retries. split; [done|].
    change (announced (Int n) (Int c) :: ?l) with ([announced (Int n) (Int c)] ++ l).
    unfold rhythm, begun_at in *. rewrite !omap_app in *. exact Hrhythm.
  - change (starting (Int c) :: ?l) with ([starting (Int c)] ++ l).
    unfold wait_lines in *. rewrite !omap_app, Hc3, Hw.
    by destruct (end_fails out); cbn; rewrite ?app_nil_r.
  - change (starting (Int c) :: ?l) with ([starting (Int c)] ++ l).
    unfold ends in *. rewrite !omap_app, !length_app, Hc4, He.
    by destruct (end_fails out).
Qed.

End Runs.


Import WorkerSamples.

Lemma batches_cover_the_operations_witness :
  connect_fails steady 0 = false ∧ (0 < 4)%nat
  ∧ 1 ≤ 5 ∧ 12 ≤ 2 ^ 53
  ∧ (∀ k j, settle steady k j ≠ rejected)
  ∧ (batches 12 5 < 4)%nat
  ∧ Forall (λ result : R unit,
              result.2 = (if end_fails steady then Rejected else Done tt)
              ∧ begun_at result.1
                = (λ q : nat, Int (Z.of_nat q * 5)) <$> seq 0 (batches 12 5)
              ∧ sum_list (launches result.1) = Z.to_nat 12
              ∧ Forall (λ p, (1 ≤ p ≤ Z.to_nat 5)%nat) (launches result.1)
              ∧ ends result.1 = 1%nat)
      [runParallelUpserts steady (Int 12) (Int 5) 4;
       runOperations steady (Int 12) (Q2Qc 2) (Int 5) 4].
Proof.
  assert ((0 < 4)%nat) as H1 by lia.
  assert (1 ≤ 5) as H2 by lia.
  assert (12 ≤ 2 ^ 53) as H3 by (by vm_compute).
  assert (∀ k j, settle steady k j ≠ rejected) as H4 by done.
  assert ((batches 12 5 < 4)%nat) as H5 by (vm_compute; lia).
  split; [reflexivity|]. split; [exact H1|]. split; [exact H2|]. split; [exact H3|].
  split; [exact H4|]. split; [exact H5|].
  exact (batches_cover_the_operations steady 12 5 (Q2Qc 2) 4 0 eq_refl H1 H2 H3 H4 H5).
Defined.


(** The same run computed: one sleep of 5000 ms for the failed
    connection attempt, then three batches with a sleep of 2000 ms
    after the first and after the second. *)
Example rhythm_of_a_run :
  rhythm (runOperations late (Int 12) (Q2Qc 2) (Int 5) 4).1
  = [inr (Q2Qc 5000); inl (Int 0); inr (Q2Qc 2000); inl (Int 5); inr (Q2Qc 2000);
     inl (Int 10)].
Proof. by vm_compute. Qed.

Lemma nonpositive_concurrency_never_ends_witness :
  connect_fails steady 0 = false ∧ (0 < 3)%nat
  ∧ 0 ≤ 0 ∧ 1 ≤ 3
  ∧ Forall (λ result : R unit,
              result.2 = Pending
              ∧ length (begun_at result.1) = 3%nat
              ∧ Forall (λ p, p = O) (launches result.1)
              ∧ ends result.1 = O)
      [runParallelUpserts steady (Int 3) (Int 0) 3;
       runOperations steady (Int 3) (Q2Qc 2) (Int 0) 3].
Proof.
  assert ((0 < 3)%nat) as H1 by lia.
  assert (0 ≤ 0) as H2 by lia.
  assert (1 ≤ 3) as H3 by lia.
  split; [reflexivity|]. split; [exact H1|]. split; [exact H2|]. split; [exact H3|].
  exact (nonpositive_concurrency_never_ends steady 3 0 (Q2Qc 2) 3 0 eq_refl H1 H2 H3).
Defined.

Lemma rejection_ends_the_run_witness :
  connect_fails one_rejection 1 = false ∧ (1 < 3)%nat
  ∧ 1 ≤ 5 ∧ 12 ≤ 2 ^ 53
  ∧ (1 < 3)%nat ∧ (1 < batches 12 5)%nat
  ∧ (∀ k' j', (k' < 1)%nat → settle one_rejection k' j' ≠ rejected)
  ∧ (0 < Z.to_nat (Z.min 5 (12 - Z.of_nat 1 * 5)))%nat
  ∧ settle one_rejection 1 0 = rejected
  ∧ ∃ es,
      operations_main one_rejection (Int 12) (Q2Qc 2) (Int 5) 3
      = (es ++ [complained "Failed to start worker: "; exit 1], Exited 1)
      ∧ begun_at es = (λ q : nat, Int (Z.of_nat q * 5)) <$> seq 0 2
      ∧ (∃ retries,
           (retries ≤ 1)%nat
           ∧ rhythm es = replicate retries (inr (Q2Qc 5000))
                         ++ between (Q2Qc 2 * Q2Qc 1000)%Qc (begun_at es))
      ∧ wait_lines es = (λ q : nat, Int (Z.of_nat q * 5)) <$> seq 0 1
      ∧ ends es = 1%nat.
Proof.
  assert ((1 < 3)%nat) as H1 by lia.
  assert (1 ≤ 5) as H2 by lia.
  assert (12 ≤ 2 ^ 53) as H3 by (by vm_compute).
  assert ((1 < batches 12 5)%nat) as H4 by (vm_compute; lia).
  assert (∀ k' j', (k' < 1)%nat → settle one_rejection k' j' ≠ rejected) as H5.
  { intros k' j' Hk'. cbn. case_bool_decide; [lia|done]. }
  assert ((0 < Z.to_nat (Z.min 5 (12 - Z.of_nat 1 * 5)))%nat) as H6 by (vm_compute; lia).
  split; [reflexivity|]. split; [exact H1|]. split; [exact H2|]. split; [exact H3|].
  split; [exact H1|]. split; [exact H4|]. split; [exact H5|]. split; [exact H6|].
  split; [reflexivity|].
  exact (rejection_ends_the_run one_rejection 12 5 (Q2Qc 2) 3 1 eq_refl H1 1 0
           H2 H3 H1 H4 H5 H6 eq_refl).
Defined.


End WorkerFacts.
